(** * privpay-cli: a shallow embedding of [src/main.rs] and of the BIP351
    engine it drives.

    The CLI glue ([index_range], the construction of the notification
    script in [Receiver::run], the JSON and plain output branches) is
    translated from [src/main.rs].  The engine itself (payment codes,
    notifications, commitments, per-index keys) lives in the [bip351]
    crate, which is not part of the source tree: it is modelled from the
    specification, over an abstract curve group given as section
    variables. *)

From Stdlib Require Import String Ascii.
From Stdlib Require Import ZArith List Bool Lia.
Import ListNotations.
#[global] Set Warnings "-register-all".

Open Scope string_scope.
Open Scope list_scope.
Open Scope Z_scope.

(** ** Common data: bytes, results *)

(** A byte is a [Z] in [0, 256). *)
Definition byte := Z.

Definition is_byte (b : byte) : bool := (0 <=? b) && (b <? 256).

(** Rust's [Result]. *)
Inductive result (A E : Type) : Type :=
| Ok : A -> result A E
| Err : E -> result A E.
Arguments Ok {A E} _.
Arguments Err {A E} _.

Definition rbind {A B E} (r : result A E) (f : A -> result B E) : result B E :=
  match r with
  | Ok a => f a
  | Err e => Err e
  end.

(** The [?] operator. *)
Notation "x <- r ;; k" := (rbind r (fun x => k))
  (at level 61, r at next level, right associativity).

Definition rmap {A B E} (f : A -> B) (r : result A E) : result B E :=
  match r with
  | Ok a => Ok (f a)
  | Err e => Err e
  end.

(** [bytes.starts_with(prefix)] *)
Fixpoint starts_with (bs prefix : list byte) {struct prefix} : bool :=
  match prefix with
  | [] => true
  | p :: ps =>
      match bs with
      | b :: bs' => (b =? p) && starts_with bs' ps
      | [] => false
      end
  end.

(** [b"PP"] *)
Definition magic : list byte := [80; 80].

(** Big-endian fixed-width encoding of a non-negative integer. *)
Fixpoint to_be (w : nat) (x : Z) : list byte :=
  match w with
  | O => []
  | S w' => to_be w' (x / 256) ++ [x mod 256]
  end.

Fixpoint from_be_acc (acc : Z) (bs : list byte) : Z :=
  match bs with
  | [] => acc
  | b :: bs' => from_be_acc (acc * 256 + b) bs'
  end.

Definition from_be (bs : list byte) : Z := from_be_acc 0 bs.

(** Little-endian fixed-width encoding (push lengths in scripts). *)
Fixpoint to_le (w : nat) (x : Z) : list byte :=
  match w with
  | O => []
  | S w' => x mod 256 :: to_le w' (x / 256)
  end.

(** ** Bitcoin scripts (the [bitcoin] crate's [Script] and [Builder]) *)

Definition OP_RETURN : byte := 106.
Definition OP_PUSHDATA1 : byte := 76.
Definition OP_PUSHDATA2 : byte := 77.
Definition OP_PUSHDATA4 : byte := 78.

(** A script is its byte string ([Script::from(Vec<u8>)] is the identity
    on bytes). *)
Definition script := list byte.

(** [Builder::push_slice]: the length prefix chosen by the size of the
    data, then the data (data of 2^32 bytes or more, on which the builder
    panics, is out of the CLI's reach and not modelled). *)
Definition push_slice (data : list byte) : list byte :=
  let n := Z.of_nat (length data) in
  if n <? OP_PUSHDATA1 then n :: data
  else if n <? 256 then OP_PUSHDATA1 :: n :: data
  else if n <? 65536 then OP_PUSHDATA2 :: to_le 2 n ++ data
  else OP_PUSHDATA4 :: to_le 4 n ++ data.

(** [Script::new_op_return(data)]:
    [Builder::new().push_opcode(OP_RETURN).push_slice(data).into_script()]. *)
Definition new_op_return (data : list byte) : script :=
  OP_RETURN :: push_slice data.

(** [Script::to_bytes()[2..]]: [None] models the out-of-bounds panic. *)
Definition slice_from_2 (s : script) : option (list byte) :=
  match s with
  | _ :: _ :: rest => Some rest
  | _ => None
  end.

(** ** Hex decoding ([FromHex for Vec<u8>]) *)

Definition hex_digit (c : ascii) : option Z :=
  let n := Z.of_nat (nat_of_ascii c) in
  if (48 <=? n) && (n <=? 57) then Some (n - 48)
  else if (97 <=? n) && (n <=? 102) then Some (n - 87)
  else if (65 <=? n) && (n <=? 70) then Some (n - 55)
  else None.

Inductive hex_error := HexOddLength | HexInvalidChar (c : ascii).

Fixpoint from_hex_chars (cs : list ascii) : result (list byte) hex_error :=
  match cs with
  | [] => Ok []
  | [_] => Err HexOddLength
  | hi :: lo :: rest =>
      match hex_digit hi, hex_digit lo with
      | Some h, Some l => rmap (fun tl => h * 16 + l :: tl) (from_hex_chars rest)
      | None, _ => Err (HexInvalidChar hi)
      | _, None => Err (HexInvalidChar lo)
      end
  end.

Definition from_hex (s : string) : result (list byte) hex_error :=
  if Nat.even (String.length s) then from_hex_chars (list_ascii_of_string s)
  else Err HexOddLength.

Definition hex_char (d : Z) : ascii :=
  if d <? 10 then ascii_of_nat (Z.to_nat (48 + d))
  else ascii_of_nat (Z.to_nat (87 + d)).

(** [ToHex]: lower-case, two digits per byte. *)
Definition to_hex (bs : list byte) : string :=
  string_of_list_ascii
    (flat_map (fun b => [hex_char (b / 16); hex_char (b mod 16)]) bs).

(** ** [index_range] *)

(** A [RangeInclusive<u64>] is its pair of bounds. *)
Record range_inclusive := RangeInclusive { r_start : Z; r_end : Z }.

(** Iterating [start..=end]: [start, start+1, ..., end], nothing when
    [start > end]. *)
Definition range_elems (r : range_inclusive) : list Z :=
  if r_start r <=? r_end r
  then map (fun k => r_start r + Z.of_nat k)
           (seq 0 (Z.to_nat (r_end r - r_start r + 1)))
  else [].

Definition index_range (first_index : Z) (last_index : option Z)
  : range_inclusive :=
  match last_index with
  | Some last_index =>
      if last_index >=? first_index then RangeInclusive first_index last_index
      else RangeInclusive first_index first_index
  | None => RangeInclusive first_index first_index
  end.

(** ** The script built by [Receiver::Decode] *)

Definition decode_input_script (bytes : list byte) : script :=
  if starts_with bytes magic then new_op_return bytes else bytes.

(** ** The BIP351 engine (crate [bip351]), modelled from the spec *)

(** [AddressType]: the CLI's enum and [bip351::AddressType] have the same
    three variants and the [From] impls map them one to one. *)
Inductive AddressType := P2pkh | P2wpkh | P2tr.

Definition address_type_eqb (a b : AddressType) : bool :=
  match a, b with
  | P2pkh, P2pkh | P2wpkh, P2wpkh | P2tr, P2tr => true
  | _, _ => false
  end.

(** [HashSet<bip351::AddressType>]: a subset of the three variants, one
    membership bit per variant. *)
Record AddrSet := AddrSet_of { has_p2pkh : bool; has_p2wpkh : bool; has_p2tr : bool }.

Definition empty_set : AddrSet := AddrSet_of false false false.

Definition set_mem (t : AddressType) (s : AddrSet) : bool :=
  match t with
  | P2pkh => has_p2pkh s
  | P2wpkh => has_p2wpkh s
  | P2tr => has_p2tr s
  end.

Definition set_insert (t : AddressType) (s : AddrSet) : AddrSet :=
  match t with
  | P2pkh => AddrSet_of true (has_p2wpkh s) (has_p2tr s)
  | P2wpkh => AddrSet_of (has_p2pkh s) true (has_p2tr s)
  | P2tr => AddrSet_of (has_p2pkh s) (has_p2wpkh s) true
  end.

(** [address_types.into_iter().map(|t| t.into()).collect()] *)
Definition collect_types (ts : list AddressType) : AddrSet :=
  fold_left (fun s t => set_insert t s) ts empty_set.

(** The order of the secp256k1 group. *)
Definition curve_order : Z :=
  115792089237316195423570985008687907852837564279074904382605163141518161494337.

(** The curve group, as the [secp256k1] crate provides it: points, the
    generator, addition, scalar multiplication and the 33-byte compressed
    encoding with its (validating) parser. *)
Class Curve := {
  point : Type;
  gen : point;
  padd : point -> point -> point;
  smul : Z -> point -> point;
  serialize : point -> list byte;
  deserialize : list byte -> option point
}.

(** The remaining primitives the engine is built from, whose exact
    construction the spec leaves open (section 9): hardened HD derivation
    of the account scalar at [m/351'/0'/account'], the sender's
    per-recipient ephemeral scalar, the domain-separating commitment hash
    over (shared point, address type, recipient index), the per-index
    tweak hash, and the external address encoder and key printers. *)
Class Primitives `{Curve} := {
  hd_account_key : list byte -> Z -> option Z;
  ephemeral_key : Z -> Z -> Z;
  commitment_hash : point -> AddressType -> Z -> Z;
  index_tweak : Z -> Z -> Z;
  encode_address : AddressType -> point -> string;
  privkey_to_string : Z -> string;
  script_asm : script -> string
}.

Inductive DecodeError :=
| BadPrefix | InvalidChar | Truncated | ChecksumMismatch
| UnknownVersion | UnknownAddressTypes | InvalidKey.

(** [bip351::Error] *)
Inductive Bip351Error :=
| DerivationError
| UnsupportedAddressType
| PaymentCodeError (e : DecodeError).

Section Engine.
Context `{C : Curve} `{P : @Primitives C}.

(** *** Payment codes *)

Record PaymentCode := MkPaymentCode {
  pc_version : Z;
  pc_key : point;
  pc_types : AddrSet
}.

Definition PC_VERSION : Z := 1.

(** Modelled from the spec: [bip351::Recipient] and
    [Recipient::from_seed]. The account scalar comes from hardened HD
    derivation (fails outside the hardened range or when the derivation
    fails); the payment code wraps its public key and the accepted set. *)
Record Recipient := MkRecipient {
  rc_secret : Z;
  rc_code : PaymentCode
}.

Definition account_key (seed : list byte) (account : Z) : result Z Bip351Error :=
  if (0 <=? account) && (account <? 2 ^ 31) then
    match hd_account_key seed account with
    | Some k => Ok k
    | None => Err DerivationError
    end
  else Err DerivationError.

Definition recipient_from_seed (seed : list byte) (account : Z)
    (accepted : AddrSet) : result Recipient Bip351Error :=
  b <- account_key seed account ;;
  Ok (MkRecipient b (MkPaymentCode PC_VERSION (smul b gen) accepted)).

(** [Recipient::payment_code] *)
Definition payment_code (r : Recipient) : PaymentCode := rc_code r.

(** Modelled from the spec: [bip351::Sender] and [Sender::from_seed]. *)
Record Sender := MkSender { sd_secret : Z }.

Definition sender_from_seed (seed : list byte) (account : Z)
  : result Sender Bip351Error :=
  a <- account_key seed account ;; Ok (MkSender a).

(** *** Notifications *)

(** Modelled from the spec: the notification payload
    {2-byte magic tag, contribution key, recipient index, address type}. *)
Record Notification := MkNotification {
  n_key : point;
  n_index : Z;
  n_type : AddressType
}.

Definition type_tag (t : AddressType) : byte :=
  match t with P2pkh => 0 | P2wpkh => 1 | P2tr => 2 end.

Definition type_of_tag (b : byte) : option AddressType :=
  if b =? 0 then Some P2pkh
  else if b =? 1 then Some P2wpkh
  else if b =? 2 then Some P2tr
  else None.

Definition encode_notification (nt : Notification) : list byte :=
  magic ++ serialize (n_key nt) ++ to_be 4 (n_index nt) ++ [type_tag (n_type nt)].

Definition NOTIFICATION_LEN : nat := 40.

Definition decode_payload (p : list byte) : option Notification :=
  if (length p =? NOTIFICATION_LEN)%nat && starts_with p magic then
    match deserialize (firstn 33 (skipn 2 p)), type_of_tag (nth 39 p 0) with
    | Some k, Some t => Some (MkNotification k (from_be (firstn 4 (skipn 35 p))) t)
    | _, _ => None
    end
  else None.

(** The data of a script made of [OP_RETURN] and exactly one push. *)
Definition parse_push (s : list byte) : option (list byte) :=
  match s with
  | [] => None
  | n :: rest =>
      if n <? OP_PUSHDATA1 then
        if (length rest =? Z.to_nat n)%nat then Some rest else None
      else if n =? OP_PUSHDATA1 then
        match rest with
        | l :: data => if (length data =? Z.to_nat l)%nat then Some data else None
        | [] => None
        end
      else if n =? OP_PUSHDATA2 then
        match rest with
        | l0 :: l1 :: data =>
            if (length data =? Z.to_nat (l0 + 256 * l1))%nat then Some data else None
        | _ => None
        end
      else if n =? OP_PUSHDATA4 then
        match rest with
        | l0 :: l1 :: l2 :: l3 :: data =>
            if (length data =? Z.to_nat (from_be [l3; l2; l1; l0]))%nat
            then Some data else None
        | _ => None
        end
      else None
  end.

Definition parse_op_return (s : script) : option (list byte) :=
  match s with
  | op :: rest => if op =? OP_RETURN then parse_push rest else None
  | [] => None
  end.

(** Modelled from the spec: notification decoding; [None] (not an error)
    when the script is not a notification. *)
Definition decode_notification (s : script) : option Notification :=
  match parse_op_return s with
  | Some data => decode_payload data
  | None => None
  end.

(** *** Commitments *)

(** Modelled from the spec: the commitment carries the shared secret, the
    address type, and the base public key (the receiver's payment-code
    key) the per-index keys are built on. *)
Record Commitment := MkCommitment {
  c_secret : Z;
  c_type : AddressType;
  c_base : point
}.

(** A [TxOut] of value 0 carrying the notification. *)
Record TxOut := MkTxOut { value : Z; script_pubkey : script }.

(** Modelled from the spec: [Sender::notify] (deriveAsSender). The
    sender refuses an address type the recipient's payment code does not
    accept (Symmetry holds for every type the sender can use, and
    Acceptance filtering makes the receiver ignore the others). *)
Definition notify (sd : Sender) (recipient : PaymentCode) (recipient_index : Z)
    (t : AddressType) : result (TxOut * Commitment) Bip351Error :=
  if negb (set_mem t (pc_types recipient)) then Err UnsupportedAddressType else
  let e := ephemeral_key (sd_secret sd) recipient_index in
  if (0 <? e) && (e <? curve_order) then
    let nt := MkNotification (smul e gen) recipient_index t in
    let shared := smul e (pc_key recipient) in
    Ok (MkTxOut 0 (new_op_return (encode_notification nt)),
        MkCommitment (commitment_hash shared t recipient_index) t (pc_key recipient))
  else Err DerivationError.

(** Modelled from the spec: [Recipient::detect_notification]
    (deriveAsReceiver with acceptance filtering). *)
Definition detect_notification (r : Recipient) (s : script) : option Commitment :=
  match decode_notification s with
  | Some nt =>
      if set_mem (n_type nt) (pc_types (rc_code r)) then
        let shared := smul (rc_secret r) (n_key nt) in
        Some (MkCommitment (commitment_hash shared (n_type nt) (n_index nt))
                           (n_type nt) (pc_key (rc_code r)))
      else None
  | None => None
  end.

(** *** Per-index key derivation *)

Definition valid_tweak (t : Z) : bool := (0 <=? t) && (t <? curve_order).

(** Modelled from the spec: [Sender::address]. *)
Definition sender_address (sd : Sender) (c : Commitment) (index : Z)
  : result string Bip351Error :=
  let t := index_tweak (c_secret c) index in
  if valid_tweak t then
    Ok (encode_address (c_type c) (padd (c_base c) (smul t gen)))
  else Err DerivationError.

(** Modelled from the spec: [Recipient::key_info]. *)
Definition key_info (r : Recipient) (c : Commitment) (index : Z)
  : result (string * point * Z) Bip351Error :=
  let t := index_tweak (c_secret c) index in
  if valid_tweak t then
    let pub := padd (c_base c) (smul t gen) in
    Ok (encode_address (c_type c) pub, pub, (rc_secret r + t) mod curve_order)
  else Err DerivationError.

End Engine.

(** *** Payment-code text encoding *)

(** Bits of a [w]-bit number, most significant first. *)
Fixpoint bits_of (w : nat) (x : Z) : list bool :=
  match w with
  | O => []
  | S w' => Z.testbit x (Z.of_nat w') :: bits_of w' x
  end.

Fixpoint of_bits_acc (acc : Z) (bs : list bool) : Z :=
  match bs with
  | [] => acc
  | b :: bs' => of_bits_acc (2 * acc + Z.b2z b) bs'
  end.

Definition of_bits (bs : list bool) : Z := of_bits_acc 0 bs.

Fixpoint chunks_fuel {A} (fuel k : nat) (l : list A) : list (list A) :=
  match fuel with
  | O => []
  | S f =>
      match l with
      | [] => []
      | _ => firstn k l :: chunks_fuel f k (skipn k l)
      end
  end.

(** Split into groups of [k] (the last one possibly shorter). *)
Definition chunks {A} (k : nat) (l : list A) : list (list A) :=
  chunks_fuel (length l) k l.

(** Regroup 8-bit values into 5-bit values and back. *)
Definition regroup (from to : nat) (xs : list Z) : list Z :=
  map of_bits (chunks to (flat_map (bits_of from) xs)).

Definition bech32_charset : string := "qpzry9x8gf2tvdw0s3jn54khce6mua7l".

Definition enc_char (v : Z) : ascii :=
  nth (Z.to_nat v) (list_ascii_of_string bech32_charset) "q"%char.

Fixpoint index_of (c : ascii) (cs : list ascii) (i : Z) : option Z :=
  match cs with
  | [] => None
  | c' :: cs' => if Ascii.eqb c c' then Some i else index_of c cs' (i + 1)
  end.

Definition dec_char (c : ascii) : option Z :=
  index_of c (list_ascii_of_string bech32_charset) 0.

Definition bech32_gen : list Z :=
  [996825010; 642813549; 513874426; 1027748829; 705979059].

Definition polymod_step (chk v : Z) : Z :=
  let b := Z.shiftr chk 25 in
  let chk' := Z.lxor (Z.shiftl (Z.land chk 33554431) 5) v in
  fold_left (fun acc i =>
               if Z.testbit b (Z.of_nat i)
               then Z.lxor acc (nth i bech32_gen 0) else acc)
            (seq 0 5) chk'.

Definition bech32_polymod (vs : list Z) : Z := fold_left polymod_step vs 1.

Definition hrp_expand (hrp : string) : list Z :=
  map (fun c => Z.shiftr (Z.of_nat (nat_of_ascii c)) 5) (list_ascii_of_string hrp)
  ++ [0]
  ++ map (fun c => Z.land (Z.of_nat (nat_of_ascii c)) 31) (list_ascii_of_string hrp).

Definition BECH32M_CONST : Z := 734539939.

Definition create_checksum (hrp : string) (data : list Z) : list Z :=
  let pm := Z.lxor (bech32_polymod (hrp_expand hrp ++ data ++ repeat 0 6)) BECH32M_CONST in
  map (fun i => Z.land (Z.shiftr pm (5 * (5 - Z.of_nat i))) 31) (seq 0 6).

Definition PC_HRP : string := "pay".

(** Number of 5-bit groups of the 35-byte binary form. *)
Definition PC_DATA_LEN : nat := 56.

Fixpoint mapM_option {A B} (f : A -> option B) (l : list A) : option (list B) :=
  match l with
  | [] => Some []
  | x :: xs =>
      match f x, mapM_option f xs with
      | Some y, Some ys => Some (y :: ys)
      | _, _ => None
      end
  end.

Fixpoint strip_prefix (p s : list ascii) : option (list ascii) :=
  match p, s with
  | [], _ => Some s
  | c :: p', c' :: s' => if Ascii.eqb c c' then strip_prefix p' s' else None
  | _ :: _, [] => None
  end.

Section Codec.
Context `{C : Curve}.

Definition flags_of (s : AddrSet) : Z :=
  Z.b2z (has_p2pkh s) + 2 * Z.b2z (has_p2wpkh s) + 4 * Z.b2z (has_p2tr s).

Definition set_of_flags (f : Z) : AddrSet :=
  AddrSet_of (Z.testbit f 0) (Z.testbit f 1) (Z.testbit f 2).

(** Modelled from the spec: the fixed-width binary form
    [version || address-type flags || compressed key] (35 bytes). *)
Definition pc_to_bytes (pc : PaymentCode) : list byte :=
  pc_version pc :: flags_of (pc_types pc) :: serialize (pc_key pc).

Definition pc_from_bytes (bs : list byte) : result PaymentCode DecodeError :=
  match bs with
  | v :: f :: key =>
      if negb ((length bs =? 35)%nat) then Err Truncated
      else if negb (v =? PC_VERSION) then Err UnknownVersion
      else if negb ((0 <=? f) && (f <? 8)) then Err UnknownAddressTypes
      else match deserialize key with
           | Some k => Ok (MkPaymentCode v k (set_of_flags f))
           | None => Err InvalidKey
           end
  | _ => Err Truncated
  end.

(** Modelled from the spec: [impl Display for PaymentCode] (to_text), a
    checksummed base-32 string: ["pay1"], the 5-bit regrouping of the
    binary form, a 6-symbol bech32m checksum. *)
Definition pc_to_string (pc : PaymentCode) : string :=
  let data := regroup 8 5 (pc_to_bytes pc) in
  (PC_HRP ++ "1" ++ string_of_list_ascii (map enc_char (data ++ create_checksum PC_HRP data)))%string.

(** Modelled from the spec: [PaymentCode::from_str] (from_text); fails
    on a wrong prefix, an invalid symbol, a wrong length, a checksum
    mismatch, an unknown version or flags, or an invalid key. *)
Definition pc_from_str (s : string) : result PaymentCode DecodeError :=
  match strip_prefix (list_ascii_of_string (PC_HRP ++ "1")) (list_ascii_of_string s) with
  | None => Err BadPrefix
  | Some body =>
      match mapM_option dec_char body with
      | None => Err InvalidChar
      | Some vs =>
          if negb ((length vs =? PC_DATA_LEN + 6)%nat) then Err Truncated
          else
            let data := firstn PC_DATA_LEN vs in
            let checksum := skipn PC_DATA_LEN vs in
            if negb (forallb (fun '(x, y) => x =? y)
                       (combine checksum (create_checksum PC_HRP data)))
            then Err ChecksumMismatch
            else pc_from_bytes (regroup 5 8 data)
      end
  end.

End Codec.

(** ** The CLI ([src/main.rs]) *)

(** [enum Error] of [main.rs]. *)
Inductive Error :=
| ErrAddress
| ErrBip32
| ErrDialoguer
| ErrHex (e : hex_error)
| ErrPrivatePayment (e : Bip351Error).

(** [json::JsonValue] (the constructors the CLI builds). *)
Inductive JsonValue :=
| JNull
| JNum (z : Z)
| JStr (s : string)
| JArr (l : list JsonValue)
| JObj (fields : list (string * JsonValue)).

(** [enum Output] *)
Inductive Output :=
| OEmpty
| OJson (j : JsonValue)
| OPlain (s : string).

(** The panics a run can hit: an out-of-bounds slice, or a
    [Vec::with_capacity] request beyond [isize::MAX] bytes
    ("capacity overflow"). *)
Inductive PanicReason := SliceOutOfBounds | CapacityOverflow.

(** How a run ends: it returns a [Result], or it panics. *)
Inductive Outcome :=
| Returned (r : result Output Error)
| Panicked (why : PanicReason).

(** Decimal rendering of a [u64] ([format!("{}")]). *)
Fixpoint dec_digits (fuel : nat) (n : Z) (acc : list ascii) : list ascii :=
  match fuel with
  | O => acc
  | S f =>
      let acc' := hex_char (n mod 10) :: acc in
      if n <? 10 then acc' else dec_digits f (n / 10) acc'
  end.

Definition dec_string (n : Z) : string := string_of_list_ascii (dec_digits 40 n []).

Definition bip32_path (account : Z) : string :=
  ("m/351'/0'/" ++ dec_string account ++ "'")%string.

(** [impl Display for AddressType] *)
Definition address_type_to_string (t : AddressType) : string :=
  match t with P2pkh => "p2pkh" | P2wpkh => "p2wpkh" | P2tr => "p2tr" end.

(** The elements of a set (a [HashSet] iterates in an unspecified order;
    one fixed order is taken here). *)
Definition set_elems (s : AddrSet) : list AddressType :=
  filter (fun t => set_mem t s) [P2pkh; P2wpkh; P2tr].

(** [get_seed_hex]: the prompt either fails or returns the typed text,
    which is then hex-decoded. *)
Definition get_seed_hex (seed_input : option string) : result (list byte) Error :=
  match seed_input with
  | None => Err ErrDialoguer
  | Some s =>
      match from_hex s with
      | Ok seed => Ok seed
      | Err e => Err (ErrHex e)
      end
  end.

Definition lift {A} (r : result A Bip351Error) : result A Error :=
  match r with
  | Ok a => Ok a
  | Err e => Err (ErrPrivatePayment e)
  end.

(** ** Output capacity hints *)

Definition u64_max : Z := 2 ^ 64 - 1.

(** [u64::saturating_add] and [u64::saturating_sub] on [u64] values. *)
Definition saturating_add (a b : Z) : Z := Z.min (a + b) u64_max.

Definition saturating_sub (a b : Z) : Z := Z.max (a - b) 0.

(** [range.end().saturating_add(1).saturating_sub( *range.start()) as usize]
    in both commands ([usize] of 64 bits). *)
Definition output_capacity (r : range_inclusive) : Z :=
  saturating_sub (saturating_add (r_end r) 1) (r_start r).

Definition isize_max : Z := 2 ^ 63 - 1.

(** [Vec::<T>::with_capacity(cap)] panics ("capacity overflow") when the
    array layout of [cap] elements of [T] does not fit: its size exceeds
    [isize::MAX] rounded down to the alignment. A request that passes the
    check is taken to be served: memory exhaustion, on which the process
    aborts, is outside the model, as for every other allocation. *)
Definition capacity_overflows (elem_size elem_align cap : Z) : bool :=
  isize_max - (elem_align - 1) <? cap * elem_size.

(** [size_of] and [align_of] of the vectors' elements on a 64-bit target:
    [json::JsonValue] takes 32 bytes, [String] 24; both align to 8. *)
Definition JSON_VALUE_SIZE : Z := 32.
Definition JSON_VALUE_ALIGN : Z := 8.
Definition STRING_SIZE : Z := 24.
Definition STRING_ALIGN : Z := 8.

Section Cli.
Context `{C : Curve} `{P : @Primitives C}.

Definition pubkey_to_string (p : point) : string := to_hex (serialize p).

(** [Receiver::Code] *)
Definition receiver_code_run (account : Z) (json : bool)
    (address_types : list AddressType) (seed_input : option string)
  : result Output Error :=
  seed <- get_seed_hex seed_input ;;
  recipient <- lift (recipient_from_seed seed account (collect_types address_types)) ;;
  let pc := payment_code recipient in
  if json then
    Ok (OJson (JObj [("payment_code", JStr (pc_to_string pc));
                     ("account", JNum account);
                     ("bip32_path", JStr (bip32_path account));
                     ("address_types",
                      JArr (map (fun t => JStr (address_type_to_string t))
                                (set_elems (pc_types pc))))]))
  else Ok (OPlain (pc_to_string pc)).

(** The JSON loop of [Receiver::Decode]. *)
Fixpoint receiver_json_loop (r : Recipient) (c : Commitment) (show_private_key : bool)
    (idxs : list Z) : result (list JsonValue) Error :=
  match idxs with
  | [] => Ok []
  | i :: rest =>
      match key_info r c i with
      | Err e => Err (ErrPrivatePayment e)
      | Ok (address, public_key, private_key) =>
          let item :=
            if show_private_key then
              JObj [("address", JStr address); ("index", JNum i);
                    ("public_key", JStr (pubkey_to_string public_key));
                    ("private_key", JStr (privkey_to_string private_key))]
            else JObj [("address", JStr address); ("index", JNum i)] in
          rmap (cons item) (receiver_json_loop r c show_private_key rest)
      end
  end.

(** The plain-text loop of [Receiver::Decode]. *)
Fixpoint receiver_plain_loop (r : Recipient) (c : Commitment) (show_private_key : bool)
    (idxs : list Z) : result (list string) Error :=
  match idxs with
  | [] => Ok []
  | i :: rest =>
      match key_info r c i with
      | Err e => Err (ErrPrivatePayment e)
      | Ok (address, public_key, private_key) =>
          let line :=
            if show_private_key then
              (dec_string i ++ ": " ++ address ++ " " ++ pubkey_to_string public_key
               ++ " " ++ privkey_to_string private_key)%string
            else (dec_string i ++ ": " ++ address)%string in
          rmap (cons line) (receiver_plain_loop r c show_private_key rest)
      end
  end.

Definition newline : string := String (ascii_of_nat 10) EmptyString.

(** The JSON document of [Receiver::Decode]. *)
Definition receiver_json_output (recipient : Recipient) (account : Z) (script : script)
    (payload : list byte) (addresses : list JsonValue) : JsonValue :=
  JObj [("receiver", JObj [("payment_code", JStr (pc_to_string (payment_code recipient)));
                           ("account", JNum account);
                           ("bip32_path", JStr (bip32_path account))]);
        ("notification", JObj [("scriptpubkey", JStr (to_hex script));
                               ("payload", JStr (to_hex payload));
                               ("asm", JStr (script_asm script))]);
        ("addresses", JArr addresses)].

(** [Receiver::Decode]. Each branch first reserves its output vector
    ([Vec::with_capacity(output_capacity)], of [JsonValue]s or of
    [String]s), then runs its loop. *)
Definition receiver_decode_run (notification : string) (account : Z) (json : bool)
    (address_types : list AddressType) (start_address_index : Z)
    (last_address_index : option Z) (show_private_key : bool)
    (seed_input : option string) : Outcome :=
  match from_hex notification with
  | Err e => Returned (Err (ErrHex e))
  | Ok bytes =>
  let script := decode_input_script bytes in
  match get_seed_hex seed_input with
  | Err e => Returned (Err e)
  | Ok seed =>
  match lift (recipient_from_seed seed account (collect_types address_types)) with
  | Err e => Returned (Err e)
  | Ok recipient =>
  match detect_notification recipient script with
  | Some commitment =>
      let range := index_range start_address_index last_address_index in
      let cap := output_capacity range in
      if json then
        if capacity_overflows JSON_VALUE_SIZE JSON_VALUE_ALIGN cap
        then Panicked CapacityOverflow else
        match receiver_json_loop recipient commitment show_private_key
                (range_elems range) with
        | Err e => Returned (Err e)
        | Ok addresses =>
            match slice_from_2 script with
            | None => Panicked SliceOutOfBounds
            | Some payload =>
                Returned (Ok (OJson (receiver_json_output recipient account script
                                                          payload addresses)))
            end
        end
      else
        if capacity_overflows STRING_SIZE STRING_ALIGN cap
        then Panicked CapacityOverflow else
        match receiver_plain_loop recipient commitment show_private_key
                (range_elems range) with
        | Err e => Returned (Err e)
        | Ok lines => Returned (Ok (OPlain (String.concat newline lines)))
        end
  | None => Returned (Ok OEmpty)
  end end end end.

(** The JSON loop of [Sender::Notify]. *)
Fixpoint sender_json_loop (sd : Sender) (c : Commitment) (idxs : list Z)
  : result (list JsonValue) Error :=
  match idxs with
  | [] => Ok []
  | i :: rest =>
      match sender_address sd c i with
      | Err e => Err (ErrPrivatePayment e)
      | Ok address =>
          rmap (cons (JObj [("address", JStr address); ("index", JNum i)]))
               (sender_json_loop sd c rest)
      end
  end.

(** The plain-text loop of [Sender::Notify]. *)
Fixpoint sender_plain_loop (sd : Sender) (c : Commitment) (idxs : list Z)
  : result (list string) Error :=
  match idxs with
  | [] => Ok []
  | i :: rest =>
      match sender_address sd c i with
      | Err e => Err (ErrPrivatePayment e)
      | Ok address =>
          rmap (cons (dec_string i ++ ": " ++ address)%string)
               (sender_plain_loop sd c rest)
      end
  end.

(** The JSON document of [Sender::Notify]. *)
Definition sender_json_output (recipient_payment_code : string) (recipient_index account : Z)
    (spk : script) (payload : list byte) (addresses : list JsonValue) : JsonValue :=
  JObj [("receiver", JObj [("payment_code", JStr recipient_payment_code);
                           ("index", JNum recipient_index)]);
        ("sender", JObj [("account", JNum account);
                         ("bip32_path", JStr (bip32_path account))]);
        ("notification", JObj [("scriptpubkey", JStr (to_hex spk));
                               ("payload", JStr (to_hex payload));
                               ("asm", JStr (script_asm spk))]);
        ("addresses", JArr addresses)].

(** [Sender::Notify]. As in [Receiver::Decode], each branch first
    reserves its output vector; the plain branch reserves one more line
    ([output_capacity.saturating_add(1)]) for the script's asm. *)
Definition sender_notify_run (account : Z) (json : bool) (recipient_index : Z)
    (address_type : AddressType) (recipient_payment_code : string)
    (start_address_index : Z) (last_address_index : option Z)
    (seed_input : option string) : Outcome :=
  match pc_from_str recipient_payment_code with
  | Err e => Returned (Err (ErrPrivatePayment (PaymentCodeError e)))
  | Ok recipient =>
  match get_seed_hex seed_input with
  | Err e => Returned (Err e)
  | Ok seed =>
  match lift (sender_from_seed seed account) with
  | Err e => Returned (Err e)
  | Ok sender =>
  match lift (notify sender recipient recipient_index address_type) with
  | Err e => Returned (Err e)
  | Ok (txout, commitment) =>
      let range := index_range start_address_index last_address_index in
      let cap := output_capacity range in
      if json then
        if capacity_overflows JSON_VALUE_SIZE JSON_VALUE_ALIGN cap
        then Panicked CapacityOverflow else
        match sender_json_loop sender commitment (range_elems range) with
        | Err e => Returned (Err e)
        | Ok addresses =>
            match slice_from_2 (script_pubkey txout) with
            | None => Panicked SliceOutOfBounds
            | Some payload =>
                Returned (Ok (OJson (sender_json_output recipient_payment_code
                   recipient_index account (script_pubkey txout) payload addresses)))
            end
        end
      else
        if capacity_overflows STRING_SIZE STRING_ALIGN (saturating_add cap 1)
        then Panicked CapacityOverflow else
        match sender_plain_loop sender commitment (range_elems range) with
        | Err e => Returned (Err e)
        | Ok lines =>
            Returned (Ok (OPlain (String.concat newline (script_asm (script_pubkey txout) :: lines))))
        end
  end end end end.

(** *** The derivations both output branches render *)







End Cli.

(** Whether a script is an [OP_RETURN] push whose data starts with the
    magic tag. *)
Definition carries_magic (s : script) : bool :=
  match parse_op_return s with
  | Some data => starts_with data magic
  | None => false
  end.

(** The payment code printed by [Receiver::Code]: the whole plain output,
    or the [payment_code] field of the JSON object. *)
Definition printed_payment_code (o : Output) : option string :=
  match o with
  | OPlain s => Some s
  | OJson (JObj fields) =>
      match find (fun kv => String.eqb (fst kv) "payment_code") fields with
      | Some (_, JStr s) => Some s
      | _ => None
      end
  | _ => None
  end.

(** ** The CLI's own [AddressType] *)

(** [enum AddressType] of [main.rs] (its [#[default]] is [P2wpkh]). *)
Inductive CliAddressType := Cli_P2pkh | Cli_P2wpkh | Cli_P2tr.

Definition cli_address_type_default : CliAddressType := Cli_P2wpkh.

(** [impl From<AddressType> for bip351::AddressType] *)
Definition cli_to_bip351 (t : CliAddressType) : AddressType :=
  match t with
  | Cli_P2pkh => P2pkh
  | Cli_P2wpkh => P2wpkh
  | Cli_P2tr => P2tr
  end.

(** [impl From<bip351::AddressType> for AddressType] *)
Definition bip351_to_cli (t : AddressType) : CliAddressType :=
  match t with
  | P2pkh => Cli_P2pkh
  | P2wpkh => Cli_P2wpkh
  | P2tr => Cli_P2tr
  end.

(** [impl Display for AddressType] *)
Definition cli_display (t : CliAddressType) : string :=
  match t with
  | Cli_P2pkh => "p2pkh"
  | Cli_P2wpkh => "p2wpkh"
  | Cli_P2tr => "p2tr"
  end.

(** ** Reading outputs back *)

(** The value of a decimal numeral (digits read most significant first). *)
Definition dec_digit_value (c : ascii) : Z :=
  match hex_digit c with Some d => d | None => 0 end.

Fixpoint dec_value_acc (v : Z) (cs : list ascii) : Z :=
  match cs with
  | [] => v
  | c :: cs' => dec_value_acc (v * 10 + dec_digit_value c) cs'
  end.

Definition dec_value (s : string) : Z := dec_value_acc 0 (list_ascii_of_string s).

(** The first field of a JSON object with a given key. *)
Definition json_field (k : string) (j : JsonValue) : option JsonValue :=
  match j with
  | JObj fields => option_map snd (find (fun kv => String.eqb (fst kv) k) fields)
  | _ => None
  end.

(** The ["index"] number of an entry of an ["addresses"] array. *)
Definition json_index (j : JsonValue) : option Z :=
  match json_field "index" j with
  | Some (JNum z) => Some z
  | _ => None
  end.


(** The same primitives with another printer for private keys. *)
Definition with_privkey_printer `{C : Curve} (P : @Primitives C) (f : Z -> string)
  : @Primitives C := {|
  hd_account_key := @hd_account_key C P;
  ephemeral_key := @ephemeral_key C P;
  commitment_hash := @commitment_hash C P;
  index_tweak := @index_tweak C P;
  encode_address := @encode_address C P;
  privkey_to_string := f;
  script_asm := @script_asm C P
|}.

(** ** A concrete instance

    The secp256k1 group is cyclic of prime order [curve_order]; this
    instance represents each point by its discrete logarithm, with
    [gen = 1].  The hash-like primitives are simple arithmetic stand-ins;
    the instance serves to evaluate the model on concrete inputs. *)
Module DlogModel.

Definition deserialize_dlog (bs : list byte) : option Z :=
  match bs with
  | h :: rest =>
      if ((h =? 2) || (h =? 3)) && (length rest =? 32)%nat then
        let x := from_be rest in
        if (0 <=? x) && (x <? curve_order) then Some x else None
      else None
  | [] => None
  end.

#[export] Instance curve : Curve := {|
  point := Z;
  gen := 1;
  padd p q := (p + q) mod curve_order;
  smul k p := (k * p) mod curve_order;
  serialize p := 2 :: to_be 32 p;
  deserialize := deserialize_dlog
|}.

#[export] Instance primitives : @Primitives curve := {|
  hd_account_key seed account := Some ((from_be seed * 31 + account + 1) mod curve_order);
  ephemeral_key a i := (a * 1000003 + i + 1) mod curve_order;
  commitment_hash p t i := (p * 65537 + type_tag t * 257 + i) mod curve_order;
  index_tweak s i := (s + i * 7919 + 1) mod curve_order;
  encode_address t p := (address_type_to_string t ++ ":" ++ to_hex (2 :: to_be 32 p))%string;
  privkey_to_string k := to_hex (to_be 32 k);
  script_asm s := to_hex s
|}.

(** Concrete inputs: a receiver accepting [P2wpkh] only, built from the
    32-byte seed [00..1f] at account 0, and a sender. *)
Definition demo_seed_hex : string :=
  "000102030405060708090a0b0c0d0e0f101112131415161718191a1b1c1d1e1f".

Definition demo_seed : list byte := map Z.of_nat (seq 0 32).

Definition demo_accepted : AddrSet := collect_types [P2wpkh].

Definition dummy_recipient : Recipient := MkRecipient 0 (MkPaymentCode PC_VERSION 0 empty_set).

Definition demo_recipient : Recipient :=
  match recipient_from_seed demo_seed 0 demo_accepted with
  | Ok r => r
  | Err _ => dummy_recipient
  end.

Definition demo_sender : Sender :=
  match sender_from_seed [170; 187] 0 with
  | Ok sd => sd
  | Err _ => MkSender 1
  end.

Definition dummy_commitment : Commitment := MkCommitment 0 P2pkh 0.

(** The notification output and commitment of [notify] to the demo
    receiver at recipient index 7, for an address type. *)
Definition demo_notify (t : AddressType) : TxOut * Commitment :=
  match notify demo_sender (payment_code demo_recipient) 7 t with
  | Ok txc => txc
  | Err _ => (MkTxOut 0 [], dummy_commitment)
  end.

(** The same seed and account, accepting [P2wpkh] and [P2tr]: a payment
    code of the demo receiver's key for which a sender may use [P2tr], and
    the notification to it for [P2tr]. *)
Definition demo_wide_recipient : Recipient :=
  match recipient_from_seed demo_seed 0 (collect_types [P2wpkh; P2tr]) with
  | Ok r => r
  | Err _ => dummy_recipient
  end.

Definition demo_notify_p2tr : TxOut * Commitment :=
  match notify demo_sender (payment_code demo_wide_recipient) 7 P2tr with
  | Ok txc => txc
  | Err _ => (MkTxOut 0 [], dummy_commitment)
  end.

Definition p2tr_hex : string := to_hex (script_pubkey (fst demo_notify_p2tr)).

Definition demo_notification (s : script) : Notification :=
  match decode_notification s with
  | Some nt => nt
  | None => MkNotification 0 0 P2pkh
  end.

Definition demo_key_info (i : Z) : string * Z * Z :=
  match key_info demo_recipient (snd (demo_notify P2wpkh)) i with
  | Ok k => k
  | Err _ => (EmptyString, 0, 0)
  end.


(** The notification script of the demo sender, in hex, and the JSON
    outputs of the three commands on demo inputs. *)
Definition demo_notification_hex : string :=
  to_hex (script_pubkey (fst (demo_notify P2wpkh))).

Definition demo_payment_code : string := pc_to_string (payment_code demo_recipient).

Definition demo_decode_json : JsonValue :=
  match receiver_decode_run demo_notification_hex 0 true [P2wpkh] 2 (Some 4) true
          (Some demo_seed_hex) with
  | Returned (Ok (OJson j)) => j
  | _ => JNull
  end.

Definition demo_notify_json : JsonValue :=
  match sender_notify_run 0 true 7 P2wpkh demo_payment_code 2 (Some 4) (Some "aabb") with
  | Returned (Ok (OJson j)) => j
  | _ => JNull
  end.

Definition demo_code_json : JsonValue :=
  match receiver_code_run 0 true [P2tr; P2wpkh; P2tr] (Some demo_seed_hex) with
  | Ok (OJson j) => j
  | _ => JNull
  end.

End DlogModel.

(** * Proofs *)

(** ** Byte strings *)

Lemma length_to_be (w : nat) (x : Z) : length (to_be w x) = w.
Proof.
  revert x; induction w as [|w IH]; intros x; simpl; [reflexivity|].
  rewrite length_app, IH; simpl; lia.
Qed.

Lemma from_be_acc_snoc (acc : Z) (l : list byte) (b : byte) :
  from_be_acc acc (l ++ [b]) = from_be_acc acc l * 256 + b.
Proof.
  revert acc; induction l as [|x l IH]; intros acc; simpl; [reflexivity|].
  apply IH.
Qed.

Lemma from_be_to_be (w : nat) (x : Z) :
  0 <= x < 256 ^ Z.of_nat w -> from_be (to_be w x) = x.
Proof.
  revert x; induction w as [|w IH]; intros x Hx.
  - change (256 ^ Z.of_nat 0) with 1 in Hx; cbn; lia.
  - cbn [to_be]; unfold from_be; rewrite from_be_acc_snoc; fold (from_be (to_be w (x / 256))).
    rewrite Nat2Z.inj_succ, Z.pow_succ_r in Hx by lia.
    rewrite IH.
    + pose proof (Z.div_mod x 256); lia.
    + split; [apply Z.div_pos; lia|].
      apply Z.div_lt_upper_bound; lia.
Qed.

Lemma to_be_bytes (w : nat) (x : Z) : forallb is_byte (to_be w x) = true.
Proof.
  revert x; induction w as [|w IH]; intros x; simpl; [reflexivity|].
  rewrite forallb_app, IH; simpl.
  unfold is_byte.
  pose proof (Z.mod_pos_bound x 256).
  destruct (0 <=? x mod 256) eqn:E1, (x mod 256 <? 256) eqn:E2; simpl; auto;
    rewrite ?Z.leb_gt, ?Z.ltb_ge in *; lia.
Qed.

Lemma is_byte_spec (b : byte) : is_byte b = true <-> 0 <= b < 256.
Proof.
  unfold is_byte; rewrite andb_true_iff, Z.leb_le, Z.ltb_lt; tauto.
Qed.

(** ** Hex *)

Lemma hex_digit_hex_char (d : Z) : 0 <= d < 16 -> hex_digit (hex_char d) = Some d.
Proof.
  intros Hd.
  assert (d = 0 \/ d = 1 \/ d = 2 \/ d = 3 \/ d = 4 \/ d = 5 \/ d = 6 \/ d = 7 \/
          d = 8 \/ d = 9 \/ d = 10 \/ d = 11 \/ d = 12 \/ d = 13 \/ d = 14 \/ d = 15)
    as Hc by lia.
  repeat destruct Hc as [Hc|Hc]; subst; reflexivity.
Qed.

Lemma from_hex_chars_to_hex (bs : list byte) :
  forallb is_byte bs = true ->
  from_hex_chars (flat_map (fun b => [hex_char (b / 16); hex_char (b mod 16)]) bs) = Ok bs.
Proof.
  induction bs as [|b bs IH]; intros Hb; simpl; [reflexivity|].
  simpl in Hb; apply andb_true_iff in Hb as [Hb Hbs].
  apply is_byte_spec in Hb.
  rewrite !hex_digit_hex_char.
  - rewrite IH by exact Hbs; simpl.
    pose proof (Z.div_mod b 16); do 2 f_equal; lia.
  - apply Z.mod_pos_bound; lia.
  - split; [apply Z.div_pos; lia|apply Z.div_lt_upper_bound; lia].
Qed.

Lemma length_string_of_list_ascii (l : list ascii) :
  String.length (string_of_list_ascii l) = length l.
Proof. induction l; simpl; congruence. Qed.

(** Hex decoding inverts hex encoding on bytes. *)
Lemma from_hex_to_hex (bs : list byte) :
  forallb is_byte bs = true -> from_hex (to_hex bs) = Ok bs.
Proof.
  intros Hb; unfold from_hex, to_hex.
  rewrite length_string_of_list_ascii, list_ascii_of_string_of_list_ascii.
  replace (length (flat_map (fun b => [hex_char (b / 16); hex_char (b mod 16)]) bs))
    with (2 * length bs)%nat.
  - rewrite Nat.even_mul; simpl.
    apply from_hex_chars_to_hex; exact Hb.
  - induction bs as [|b bs IH]; simpl; [reflexivity|].
    simpl in Hb; apply andb_true_iff in Hb as [_ Hb]; rewrite <- IH by exact Hb; lia.
Qed.

(** ** Scripts *)

Lemma to_le_bytes (w : nat) (x : Z) : forallb is_byte (to_le w x) = true.
Proof.
  revert x; induction w as [|w IH]; intros x; simpl; [reflexivity|].
  rewrite IH, andb_true_r; apply is_byte_spec, Z.mod_pos_bound; lia.
Qed.

Lemma new_op_return_bytes (p : list byte) :
  forallb is_byte p = true -> forallb is_byte (new_op_return p) = true.
Proof.
  intros Hp; unfold new_op_return, push_slice.
  set (n := Z.of_nat (length p)).
  assert (Hn : 0 <= n) by (unfold n; lia).
  unfold OP_PUSHDATA1.
  destruct (Z.ltb_spec n 76) as [E1|E1]; [|destruct (Z.ltb_spec n 256) as [E2|E2];
    [|destruct (Z.ltb_spec n 65536) as [E3|E3]]];
    cbn [forallb]; rewrite ?forallb_app, ?to_le_bytes, ?Hp;
    rewrite ?andb_true_r; repeat rewrite andb_true_iff; repeat split;
    apply is_byte_spec; unfold OP_RETURN, OP_PUSHDATA1, OP_PUSHDATA2, OP_PUSHDATA4; lia.
Qed.

Lemma new_op_return_no_magic (p : list byte) :
  starts_with (new_op_return p) magic = false.
Proof. reflexivity. Qed.

(** ** [index_range] *)

(** C5: [index_range s e] is the inclusive range [s..=e] when [e] is given
    and [e >= s], and the single index [s] when [e] is absent or below [s];
    its elements are never empty and always start at [s]. *)
Theorem index_range_defaulting (s : Z) (e : option Z) :
  r_start (index_range s e) = s
  /\ r_end (index_range s e) =
       match e with Some e' => if s <=? e' then e' else s | None => s end
  /\ range_elems (index_range s e) =
       match e with
       | Some e' =>
           if s <=? e' then map (fun k => s + Z.of_nat k) (seq 0 (Z.to_nat (e' - s + 1)))
           else [s]
       | None => [s]
       end
  /\ r_start (index_range s e) <= r_end (index_range s e)
  /\ hd_error (range_elems (index_range s e)) = Some s.
Proof.
  assert (single : range_elems (RangeInclusive s s) = [s]).
  { unfold range_elems; simpl; rewrite Z.leb_refl.
    replace (s - s + 1) with 1 by lia; simpl; f_equal; lia. }
  destruct e as [e|]; cbn [index_range].
  - destruct (Z.leb_spec s e) as [H|H].
    + assert (Hge : (e >=? s) = true) by (rewrite Z.geb_le; lia).
      rewrite Hge; cbn [r_start r_end].
      assert (Hel : range_elems (RangeInclusive s e)
                    = map (fun k => s + Z.of_nat k) (seq 0 (Z.to_nat (e - s + 1)))).
      { unfold range_elems; cbn [r_start r_end]; rewrite (proj2 (Z.leb_le s e) H);
        reflexivity. }
      rewrite Hel; repeat split; try lia.
      replace (Z.to_nat (e - s + 1)) with (S (Z.to_nat (e - s))) by lia.
      simpl; f_equal; lia.
    + assert (Hge : (e >=? s) = false) by (rewrite Z.geb_leb, Z.leb_gt; lia).
      rewrite Hge; cbn [r_start r_end]; rewrite single; repeat split; lia.
  - cbn [r_start r_end]; rewrite single; repeat split; lia.
Qed.

(** ** The notification argument of [Receiver::Decode] *)

(** C8: the hex-decoded argument is wrapped in a new [OP_RETURN] script
    exactly when it starts with ["PP"], and taken verbatim otherwise; so a
    bare payload and the hex of the full [OP_RETURN] script built from it
    give the same script, and the same run of [Receiver::Decode]. *)
Theorem decode_input_both_forms :
  (forall bytes, starts_with bytes magic = true ->
     decode_input_script bytes = new_op_return bytes)
  /\ (forall bytes, starts_with bytes magic = false ->
     decode_input_script bytes = bytes)
  /\ (forall p, decode_input_script (new_op_return p) = new_op_return p)
  /\ (forall p, starts_with p magic = true ->
     decode_input_script p = decode_input_script (new_op_return p))
  /\ (forall `{C : Curve} `{P : @Primitives C} (p : list byte) account json
        address_types start last show_private_key seed_input,
        forallb is_byte p = true -> starts_with p magic = true ->
        receiver_decode_run (to_hex p) account json address_types start last
          show_private_key seed_input
        = receiver_decode_run (to_hex (new_op_return p)) account json address_types
            start last show_private_key seed_input).
Proof.
  assert (wrap : forall bytes, starts_with bytes magic = true ->
                 decode_input_script bytes = new_op_return bytes).
  { intros bytes H; unfold decode_input_script; rewrite H; reflexivity. }
  assert (full : forall p, decode_input_script (new_op_return p) = new_op_return p).
  { intros p; unfold decode_input_script; rewrite new_op_return_no_magic; reflexivity. }
  split; [exact wrap|].
  split; [intros bytes H; unfold decode_input_script; rewrite H; reflexivity|].
  split; [exact full|].
  split; [intros p H; rewrite wrap, full by exact H; reflexivity|].
  intros C P p account json address_types start last show seed_input Hp Hm.
  unfold receiver_decode_run.
  rewrite (from_hex_to_hex p Hp), (from_hex_to_hex _ (new_op_return_bytes p Hp)).
  rewrite wrap, full by exact Hm; reflexivity.
Qed.

(** ** Structure of the two runs *)

Section Structure.
Context `{C : Curve} `{P : @Primitives C}.

Lemma parse_op_return_shape (s : script) (data : list byte) :
  parse_op_return s = Some data -> exists b rest, s = OP_RETURN :: b :: rest.
Proof.
  destruct s as [|op rest]; simpl; [discriminate|].
  destruct (Z.eqb_spec op OP_RETURN) as [->|]; [|discriminate].
  destruct rest as [|b rest]; simpl; [discriminate|].
  intros _; eauto.
Qed.

Lemma detect_script_long (r : Recipient) (s : script) (c : Commitment) :
  detect_notification r s = Some c -> (2 <= length s)%nat.
Proof.
  unfold detect_notification, decode_notification.
  destruct (parse_op_return s) as [data|] eqn:Hp; [|discriminate].
  destruct (parse_op_return_shape s data Hp) as (b & rest & ->); simpl; lia.
Qed.

Lemma new_op_return_long (p : list byte) : (2 <= length (new_op_return p))%nat.
Proof.
  unfold new_op_return, push_slice.
  destruct (_ <? OP_PUSHDATA1); [|destruct (_ <? 256); [|destruct (_ <? 65536)]];
    simpl; lia.
Qed.

Lemma notify_script_long (sd : Sender) (pc : PaymentCode) (idx : Z) (t : AddressType)
    (tx : TxOut) (c : Commitment) :
  notify sd pc idx t = Ok (tx, c) -> (2 <= length (script_pubkey tx))%nat.
Proof.
  unfold notify; destruct (negb _); [discriminate|]; destruct (_ && _); [|discriminate].
  intros H; injection H as <- _; apply new_op_return_long.
Qed.

Lemma slice_from_2_long (s : script) :
  (2 <= length s)%nat -> slice_from_2 s = Some (skipn 2 s).
Proof. destruct s as [|a [|b s]]; simpl; intros; try lia; reflexivity. Qed.





(** C10: a detected notification script, and the script of a successful
    [notify], has at least two bytes, so the JSON branches' payload slice
    [to_bytes()[2..]] is in bounds: the only panic either command can hit
    is the capacity overflow of its output vector, never the slice. *)
Theorem json_payload_slice_in_bounds :
  (forall r s c, detect_notification r s = Some c -> (2 <= length s)%nat)
  /\ (forall sd pc idx t tx c, notify sd pc idx t = Ok (tx, c) ->
        (2 <= length (script_pubkey tx))%nat)
  /\ (forall notification account json address_types start last show seed_input why,
        receiver_decode_run notification account json address_types start last
          show seed_input = Panicked why -> why = CapacityOverflow)
  /\ (forall account json recipient_index address_type recipient_payment_code
         start last seed_input why,
        sender_notify_run account json recipient_index address_type
          recipient_payment_code start last seed_input = Panicked why ->
        why = CapacityOverflow).
Proof.
  split; [exact detect_script_long|].
  split; [exact notify_script_long|].
  split.
  - intros notification account json address_types start last show seed_input why.
    unfold receiver_decode_run.
    destruct (from_hex notification) as [bytes|]; [|discriminate].
    destruct (get_seed_hex seed_input) as [seed|]; [|discriminate].
    destruct (lift _) as [r|]; [|discriminate].
    destruct (detect_notification r _) as [c|] eqn:Hd; [|discriminate].
    destruct json; (destruct (capacity_overflows _ _ _);
      [intros H; injection H as <-; reflexivity|]).
    + destruct (receiver_json_loop _ _ _ _); [|discriminate].
      rewrite (slice_from_2_long _ (detect_script_long _ _ _ Hd)); discriminate.
    + destruct (receiver_plain_loop _ _ _ _); discriminate.
  - intros account json recipient_index address_type rpc start last seed_input why.
    unfold sender_notify_run.
    destruct (pc_from_str rpc) as [pc|]; [|discriminate].
    destruct (get_seed_hex seed_input) as [seed|]; [|discriminate].
    destruct (lift (sender_from_seed _ _)) as [sd|]; [|discriminate].
    destruct (notify sd pc recipient_index address_type) as [[tx c]|] eqn:Hn;
      [|discriminate].
    cbn [lift].
    destruct json; (destruct (capacity_overflows _ _ _);
      [intros H; injection H as <-; reflexivity|]).
    + destruct (sender_json_loop _ _ _); [|discriminate].
      rewrite (slice_from_2_long _ (notify_script_long _ _ _ _ _ _ Hn)); discriminate.
    + destruct (sender_plain_loop _ _ _); discriminate.
Qed.


End Structure.

(** ** Reserving the output vector *)

Section Reservation.
Context `{C : Curve} `{P : @Primitives C}.


End Reservation.

(** ** Scripts that yield no commitment *)

Section NoMatch.
Context `{C : Curve} `{P : @Primitives C}.

Lemma recipient_from_seed_types (seed : list byte) (account : Z) (accepted : AddrSet)
    (r : Recipient) :
  recipient_from_seed seed account accepted = Ok r -> pc_types (rc_code r) = accepted.
Proof.
  unfold recipient_from_seed; destruct (account_key seed account); [|discriminate].
  intros H; injection H as <-; reflexivity.
Qed.

Lemma no_magic_no_notification (s : script) :
  carries_magic s = false -> decode_notification s = None.
Proof.
  unfold carries_magic, decode_notification, decode_payload.
  destruct (parse_op_return s) as [data|]; [|reflexivity].
  intros H; rewrite H, andb_false_r; reflexivity.
Qed.

Lemma decode_run_no_commitment (notification : string) account json address_types
    start last show seed_input bytes seed r :
  from_hex notification = Ok bytes ->
  get_seed_hex seed_input = Ok seed ->
  recipient_from_seed seed account (collect_types address_types) = Ok r ->
  detect_notification r (decode_input_script bytes) = None ->
  receiver_decode_run notification account json address_types start last show seed_input
  = Returned (Ok OEmpty).
Proof.
  intros Hh Hs Hr Hd; unfold receiver_decode_run.
  rewrite Hh; cbv zeta; rewrite Hs; cbn [lift]; rewrite Hr; cbn [lift]; rewrite Hd;
  reflexivity.
Qed.

(** C3: a notification whose address type is not among the receiver's
    accepted types is not detected ([detect_notification] gives [None]),
    and [Receiver::Decode] then returns the empty output. *)
Theorem unaccepted_type_not_detected (notification : string) account json address_types
    start last show seed_input bytes seed r nt :
  from_hex notification = Ok bytes ->
  get_seed_hex seed_input = Ok seed ->
  recipient_from_seed seed account (collect_types address_types) = Ok r ->
  decode_notification (decode_input_script bytes) = Some nt ->
  set_mem (n_type nt) (collect_types address_types) = false ->
  detect_notification r (decode_input_script bytes) = None
  /\ receiver_decode_run notification account json address_types start last show seed_input
     = Returned (Ok OEmpty).
Proof.
  intros Hh Hs Hr Hn Ht.
  assert (Hd : detect_notification r (decode_input_script bytes) = None).
  { unfold detect_notification; rewrite Hn.
    rewrite (recipient_from_seed_types _ _ _ _ Hr), Ht; reflexivity. }
  split; [exact Hd|].
  eapply decode_run_no_commitment; eauto.
Qed.

(** C4: a script that does not carry the magic tag, or that does not
    decode as a notification, gives no notification ([None], not an
    error), no commitment, and [Receiver::Decode] returns the empty
    output instead of failing (once the seed has been read and the
    recipient built, the only other ways for the command to fail). *)
Theorem non_notification_empty (notification : string) account json address_types
    start last show seed_input bytes seed r :
  from_hex notification = Ok bytes ->
  get_seed_hex seed_input = Ok seed ->
  recipient_from_seed seed account (collect_types address_types) = Ok r ->
  carries_magic (decode_input_script bytes) = false
    \/ decode_notification (decode_input_script bytes) = None ->
  decode_notification (decode_input_script bytes) = None
  /\ detect_notification r (decode_input_script bytes) = None
  /\ receiver_decode_run notification account json address_types start last show seed_input
     = Returned (Ok OEmpty).
Proof.
  intros Hh Hs Hr Hm.
  assert (Hn : decode_notification (decode_input_script bytes) = None).
  { destruct Hm as [Hm|Hm]; [apply no_magic_no_notification|]; exact Hm. }
  assert (Hd : detect_notification r (decode_input_script bytes) = None).
  { unfold detect_notification; rewrite Hn; reflexivity. }
  split; [exact Hn|]; split; [exact Hd|].
  eapply decode_run_no_commitment; eauto.
Qed.

End NoMatch.

(** ** The engine over a curve group *)

Lemma firstn_app_exact {A} (n : nat) (l1 l2 : list A) :
  length l1 = n -> firstn n (l1 ++ l2) = l1.
Proof.
  intros <-; induction l1 as [|x l1 IH]; simpl; [reflexivity|]; rewrite IH; reflexivity.
Qed.

Lemma skipn_app_exact {A} (n : nat) (l1 l2 : list A) :
  length l1 = n -> skipn n (l1 ++ l2) = l2.
Proof.
  intros <-; induction l1 as [|x l1 IH]; simpl; [reflexivity|]; exact IH.
Qed.

Section Laws.
Context `{C : Curve} `{P : @Primitives C}.

(** The group laws the protocol relies on: Diffie-Hellman commutativity,
    and scalar multiplication of the generator as a homomorphism from the
    scalars modulo the group order. *)
Hypothesis smul_comm : forall a b, smul a (smul b gen) = smul b (smul a gen).
Hypothesis smul_add :
  forall a b, smul ((a + b) mod curve_order) gen = padd (smul a gen) (smul b gen).

Lemma recipient_key (seed : list byte) (account : Z) (accepted : AddrSet) (r : Recipient) :
  recipient_from_seed seed account accepted = Ok r ->
  pc_key (rc_code r) = smul (rc_secret r) gen.
Proof.
  unfold recipient_from_seed; destruct (account_key seed account); [|discriminate].
  intros H; injection H as <-; reflexivity.
Qed.

Lemma detect_base (r : Recipient) (s : script) (c : Commitment) :
  detect_notification r s = Some c -> c_base c = pc_key (rc_code r).
Proof.
  unfold detect_notification; destruct (decode_notification s) as [nt|]; [|discriminate].
  destruct (set_mem _ _); [|discriminate].
  intros H; injection H as <-; reflexivity.
Qed.

(** On a commitment whose base key is the receiver's own public key, the
    receiver's private key is the discrete logarithm of the public key. *)
Lemma key_info_on_own_base (r : Recipient) (c : Commitment) (i : Z)
    (addr : string) (pub : point) (priv : Z) :
  c_base c = smul (rc_secret r) gen ->
  key_info r c i = Ok (addr, pub, priv) ->
  smul priv gen = pub /\ addr = encode_address (c_type c) pub.
Proof.
  intros Hb; unfold key_info.
  destruct (valid_tweak _); [|discriminate].
  intros H; injection H as <- <- <-.
  rewrite Hb, smul_add; split; reflexivity.
Qed.

(** C7: at every index where the receiver's [key_info] succeeds on a
    detected commitment, the private key's public image is the returned
    public key, and the address is the address-type encoding of that key. *)
Theorem key_info_private_key_matches (seed : list byte) (account : Z) (accepted : AddrSet)
    (r : Recipient) (s : script) (c : Commitment) (i : Z)
    (addr : string) (pub : point) (priv : Z) :
  recipient_from_seed seed account accepted = Ok r ->
  detect_notification r s = Some c ->
  key_info r c i = Ok (addr, pub, priv) ->
  smul priv gen = pub /\ addr = encode_address (c_type c) pub.
Proof.
  intros Hr Hd Hk.
  apply (key_info_on_own_base r c i); [|exact Hk].
  rewrite (detect_base r s c Hd); exact (recipient_key seed account accepted r Hr).
Qed.

(** The compressed encoding of a point round-trips and has 33 bytes. *)
Hypothesis serialize_len : forall k, length (serialize (smul k gen)) = 33%nat.
Hypothesis deserialize_serialize :
  forall k, deserialize (serialize (smul k gen)) = Some (smul k gen).

Lemma decode_encode_notification (e idx : Z) (t : AddressType) :
  0 <= idx < 2 ^ 32 ->
  decode_notification (new_op_return (encode_notification (MkNotification (smul e gen) idx t)))
  = Some (MkNotification (smul e gen) idx t).
Proof.
  intros Hidx.
  set (ser := serialize (smul e gen)).
  assert (Hser : length ser = 33%nat) by apply serialize_len.
  set (p := encode_notification (MkNotification (smul e gen) idx t)).
  assert (Hp : p = magic ++ ser ++ to_be 4 idx ++ [type_tag t]) by reflexivity.
  assert (Hlen : length p = 40%nat).
  { rewrite Hp, !length_app, Hser, length_to_be; reflexivity. }
  assert (Hs : new_op_return p = OP_RETURN :: 40 :: p).
  { unfold new_op_return, push_slice; rewrite Hlen; reflexivity. }
  assert (Hparse : parse_op_return (OP_RETURN :: 40 :: p) = Some p).
  { unfold parse_op_return, parse_push; rewrite Hlen; reflexivity. }
  unfold decode_notification; rewrite Hs, Hparse.
  unfold decode_payload; rewrite Hlen.
  assert (Hm : starts_with p magic = true) by (rewrite Hp; unfold magic; simpl; reflexivity).
  rewrite Hm; cbn [Nat.eqb andb NOTIFICATION_LEN].
  assert (Hkey : firstn 33 (skipn 2 p) = ser).
  { rewrite Hp; cbn [magic app skipn]; apply firstn_app_exact; exact Hser. }
  assert (Htag : nth 39 p 0 = type_tag t).
  { rewrite Hp, !app_assoc, app_nth2; rewrite !length_app, Hser, length_to_be;
      [reflexivity|simpl; lia]. }
  assert (Hidx' : firstn 4 (skipn 35 p) = to_be 4 idx).
  { rewrite Hp, app_assoc, skipn_app_exact.
    - apply firstn_app_exact, length_to_be.
    - rewrite length_app, Hser; reflexivity. }
  rewrite Hkey, Htag, Hidx'; unfold ser; rewrite deserialize_serialize.
  rewrite from_be_to_be by (change (256 ^ Z.of_nat 4) with (2 ^ 32); exact Hidx).
  destruct t; reflexivity.
Qed.

(** C1: for every receiver built from a seed and account, every sender,
    recipient index and address type, when [notify] succeeds on the
    receiver's payment code (it refuses a type the code does not accept),
    the receiver detects the notification and obtains exactly the sender's
    commitment; at every index both sides then derive the same address (or
    fail alike), and the receiver's private key matches the public key. *)
Theorem notify_detect_agree (seed : list byte) (account : Z) (accepted : AddrSet)
    (r : Recipient) (sd : Sender) (recipient_index : Z) (t : AddressType)
    (tx : TxOut) (c : Commitment) :
  recipient_from_seed seed account accepted = Ok r ->
  0 <= recipient_index < 2 ^ 32 ->
  notify sd (payment_code r) recipient_index t = Ok (tx, c) ->
  detect_notification r (script_pubkey tx) = Some c
  /\ forall i,
       match sender_address sd c i, key_info r c i with
       | Ok a, Ok (a', pub, priv) => a = a' /\ smul priv gen = pub
       | Err e, Err e' => e = e'
       | _, _ => False
       end.
Proof.
  intros Hr Hidx Hn.
  pose proof (recipient_key seed account accepted r Hr) as Hkey.
  unfold notify in Hn.
  destruct (set_mem t (pc_types (payment_code r))) eqn:Ht; [|discriminate].
  cbn [negb] in Hn; destruct (_ && _); [|discriminate].
  injection Hn as <- <-; cbn [script_pubkey].
  split.
  - unfold detect_notification; rewrite decode_encode_notification by exact Hidx.
    cbn [n_type n_key n_index]; unfold payment_code in Ht; rewrite Ht.
    unfold payment_code; rewrite Hkey, smul_comm; reflexivity.
  - intros i; unfold sender_address, key_info; cbn [c_secret c_type c_base].
    destruct (valid_tweak _); [|reflexivity].
    split; [reflexivity|].
    unfold payment_code; rewrite Hkey, smul_add; reflexivity.
Qed.

End Laws.

(** ** The payment-code text encoding *)

Lemma length_bits_of (w : nat) (x : Z) : length (bits_of w x) = w.
Proof. induction w; simpl; congruence. Qed.

Lemma of_bits_bits_of_8 (x : Z) : 0 <= x < 256 -> of_bits (bits_of 8 x) = x.
Proof.
  intros Hx.
  assert (Hall : forallb (fun n => of_bits (bits_of 8 (Z.of_nat n)) =? Z.of_nat n)
                         (seq 0 256) = true) by (vm_compute; reflexivity).
  rewrite forallb_forall in Hall.
  specialize (Hall (Z.to_nat x) ltac:(apply in_seq; lia)).
  rewrite Z2Nat.id in Hall by lia; apply Z.eqb_eq; exact Hall.
Qed.

Ltac destruct_bits :=
  repeat match goal with b : bool |- _ => destruct b end.

Lemma bits_of_of_bits_5 (bs : list bool) :
  length bs = 5%nat -> bits_of 5 (of_bits bs) = bs.
Proof.
  intros H; do 6 (destruct bs as [|? bs]; simpl in H; try discriminate).
  destruct_bits; reflexivity.
Qed.

Lemma of_bits_range_5 (bs : list bool) :
  length bs = 5%nat -> 0 <= of_bits bs < 32.
Proof.
  intros H; do 6 (destruct bs as [|? bs]; simpl in H; try discriminate).
  destruct_bits; unfold of_bits; simpl; lia.
Qed.

Section Chunks.
Context {A : Type}.

Lemma chunks_fuel_nil (fuel k : nat) : @chunks_fuel A fuel k [] = [].
Proof. destruct fuel; reflexivity. Qed.

Lemma chunks_fuel_concat (k : nat) (ls : list (list A)) (fuel : nat) :
  (0 < k)%nat -> Forall (fun l => length l = k) ls ->
  (length (concat ls) <= fuel)%nat -> chunks_fuel fuel k (concat ls) = ls.
Proof.
  intros Hk; revert fuel; induction ls as [|l ls IH]; intros fuel Hls Hlen.
  - apply chunks_fuel_nil.
  - inversion Hls as [|? ? Hl Hrest]; subst.
    simpl in Hlen; rewrite length_app in Hlen.
    destruct fuel as [|f]; [lia|].
    simpl; destruct l as [|x l']; [simpl in Hk; lia|].
    rewrite firstn_app_exact, skipn_app_exact by reflexivity.
    cbn [app]; rewrite IH by (auto; simpl in *; lia); reflexivity.
Qed.

Lemma chunks_concat (k : nat) (ls : list (list A)) :
  (0 < k)%nat -> Forall (fun l => length l = k) ls -> chunks k (concat ls) = ls.
Proof. intros; apply chunks_fuel_concat; auto. Qed.

Lemma chunks_fuel_exact (k n : nat) (l : list A) (fuel : nat) :
  (0 < k)%nat -> length l = (n * k)%nat -> (n <= fuel)%nat ->
  Forall (fun c => length c = k) (chunks_fuel fuel k l)
  /\ concat (chunks_fuel fuel k l) = l
  /\ length (chunks_fuel fuel k l) = n.
Proof.
  intros Hk; revert l fuel; induction n as [|n IH]; intros l fuel Hl Hn.
  - destruct l; [|simpl in Hl; discriminate].
    rewrite chunks_fuel_nil; auto.
  - destruct fuel as [|f]; [lia|].
    destruct l as [|x l']; [simpl in Hl; lia|].
    cbn [chunks_fuel].
    destruct (IH (skipn k (x :: l')) f) as (H1 & H2 & H3).
    + rewrite length_skipn, Hl; lia.
    + lia.
    + split; [constructor; [rewrite length_firstn, Hl; lia|exact H1]|].
      split; [simpl concat; rewrite H2; apply firstn_skipn|].
      simpl; rewrite H3; reflexivity.
Qed.

Lemma chunks_exact (k n : nat) (l : list A) :
  (0 < k)%nat -> length l = (n * k)%nat ->
  Forall (fun c => length c = k) (chunks k l) /\ concat (chunks k l) = l
  /\ length (chunks k l) = n.
Proof. intros Hk Hl; apply chunks_fuel_exact; auto; nia. Qed.

End Chunks.

Lemma length_flat_map_bits (w : nat) (xs : list Z) :
  length (flat_map (bits_of w) xs) = (length xs * w)%nat.
Proof.
  induction xs as [|x xs IH]; simpl; [reflexivity|].
  rewrite length_app, length_bits_of, IH; lia.
Qed.

(** Regrouping bytes into 5-bit values and back is the identity when the
    bit count is a multiple of 5. *)
Lemma regroup_roundtrip (bytes : list byte) (n : nat) :
  forallb is_byte bytes = true -> (length bytes * 8 = n * 5)%nat ->
  regroup 5 8 (regroup 8 5 bytes) = bytes
  /\ length (regroup 8 5 bytes) = n
  /\ Forall (fun v => 0 <= v < 32) (regroup 8 5 bytes).
Proof.
  intros Hb Hlen.
  set (B := flat_map (bits_of 8) bytes).
  assert (HB : length B = (n * 5)%nat) by (unfold B; rewrite length_flat_map_bits; exact Hlen).
  destruct (chunks_exact 5 n B ltac:(lia) HB) as (Hc1 & Hc2 & Hc3).
  assert (Hr : regroup 8 5 bytes = map of_bits (chunks 5 B)) by reflexivity.
  rewrite Hr; split; [|split].
  - unfold regroup.
    rewrite flat_map_concat_map, map_map.
    rewrite (map_ext_in _ (fun c => c)).
    2:{ intros c Hc; apply bits_of_of_bits_5.
        rewrite Forall_forall in Hc1; apply Hc1, Hc. }
    rewrite map_id, Hc2.
    unfold B; rewrite flat_map_concat_map.
    rewrite chunks_concat.
    + rewrite map_map; rewrite <- (map_id bytes) at 2; apply map_ext_in.
      intros x Hx; apply of_bits_bits_of_8, is_byte_spec.
      rewrite forallb_forall in Hb; apply Hb, Hx.
    + lia.
    + apply Forall_map, Forall_forall; intros; apply length_bits_of.
  - rewrite length_map; exact Hc3.
  - apply Forall_map; eapply Forall_impl; [|exact Hc1].
    intros c Hc; apply of_bits_range_5, Hc.
Qed.

Lemma dec_enc_char (v : Z) : 0 <= v < 32 -> dec_char (enc_char v) = Some v.
Proof.
  intros Hv.
  assert (Hall : forallb (fun n => match dec_char (enc_char (Z.of_nat n)) with
                                   | Some w => w =? Z.of_nat n
                                   | None => false
                                   end) (seq 0 32) = true) by (vm_compute; reflexivity).
  rewrite forallb_forall in Hall.
  specialize (Hall (Z.to_nat v) ltac:(apply in_seq; lia)).
  rewrite Z2Nat.id in Hall by lia.
  destruct (dec_char (enc_char v)); [|discriminate].
  apply Z.eqb_eq in Hall; congruence.
Qed.

Lemma mapM_dec_enc (vs : list Z) :
  Forall (fun v => 0 <= v < 32) vs -> mapM_option dec_char (map enc_char vs) = Some vs.
Proof.
  induction 1 as [|v vs Hv _ IH]; simpl; [reflexivity|].
  rewrite dec_enc_char, IH by exact Hv; reflexivity.
Qed.

Lemma create_checksum_shape (hrp : string) (data : list Z) :
  length (create_checksum hrp data) = 6%nat
  /\ Forall (fun v => 0 <= v < 32) (create_checksum hrp data).
Proof.
  unfold create_checksum; split; [rewrite length_map; reflexivity|].
  apply Forall_map, Forall_forall; intros i _.
  change 31 with (Z.ones 5); rewrite Z.land_ones by lia.
  apply Z.mod_pos_bound; reflexivity.
Qed.

Lemma list_ascii_of_string_append (s1 s2 : string) :
  list_ascii_of_string (s1 ++ s2) = list_ascii_of_string s1 ++ list_ascii_of_string s2.
Proof. induction s1; simpl; congruence. Qed.

Lemma strip_prefix_app (p s : list ascii) : strip_prefix p (p ++ s) = Some s.
Proof.
  induction p as [|c p IH]; simpl; [reflexivity|].
  rewrite Ascii.eqb_refl; exact IH.
Qed.

Lemma forallb_combine_refl (l : list Z) :
  forallb (fun '(x, y) => x =? y) (combine l l) = true.
Proof. induction l; simpl; [reflexivity|]; rewrite Z.eqb_refl; assumption. Qed.

Lemma set_of_flags_of (s : AddrSet) : set_of_flags (flags_of s) = s.
Proof. destruct s as [[] [] []]; reflexivity. Qed.

Lemma flags_of_range (s : AddrSet) : 0 <= flags_of s < 8.
Proof. destruct s as [[] [] []]; unfold flags_of; simpl; lia. Qed.

Section TextCodec.
Context `{C : Curve} `{P : @Primitives C}.

(** The compressed encoding of a generated key: 33 bytes, which the
    parser accepts back. *)
Hypothesis serialize_len : forall k, length (serialize (smul k gen)) = 33%nat.
Hypothesis serialize_bytes : forall k, forallb is_byte (serialize (smul k gen)) = true.
Hypothesis deserialize_serialize :
  forall k, deserialize (serialize (smul k gen)) = Some (smul k gen).

Lemma pc_bytes_roundtrip (k : Z) (types : AddrSet) :
  pc_from_bytes (pc_to_bytes (MkPaymentCode PC_VERSION (smul k gen) types))
  = Ok (MkPaymentCode PC_VERSION (smul k gen) types).
Proof.
  unfold pc_to_bytes, pc_from_bytes; cbn [pc_version pc_types pc_key].
  pose proof (flags_of_range types) as Hf.
  cbn [length]; rewrite serialize_len; cbn -[flags_of PC_VERSION].
  rewrite Z.eqb_refl; cbn [negb].
  rewrite (proj2 (Z.leb_le 0 _) (proj1 Hf)), (proj2 (Z.ltb_lt _ 8) (proj2 Hf)).
  cbn [andb negb]; rewrite deserialize_serialize, set_of_flags_of; reflexivity.
Qed.

Lemma pc_text_roundtrip (k : Z) (types : AddrSet) :
  pc_from_str (pc_to_string (MkPaymentCode PC_VERSION (smul k gen) types))
  = Ok (MkPaymentCode PC_VERSION (smul k gen) types).
Proof.
  set (pc := MkPaymentCode PC_VERSION (smul k gen) types).
  set (bytes := pc_to_bytes pc).
  assert (Hb : forallb is_byte bytes = true).
  { change (is_byte PC_VERSION && (is_byte (flags_of types)
              && forallb is_byte (serialize (smul k gen))) = true).
    rewrite serialize_bytes, andb_true_r.
    pose proof (flags_of_range types).
    apply andb_true_iff; split; apply is_byte_spec; unfold PC_VERSION; lia. }
  assert (Hlen : (length bytes * 8 = PC_DATA_LEN * 5)%nat).
  { change (S (S (length (serialize (smul k gen)))) * 8 = PC_DATA_LEN * 5)%nat.
    rewrite serialize_len; reflexivity. }
  destruct (regroup_roundtrip bytes PC_DATA_LEN Hb Hlen) as (Hrt & Hdl & Hdr).
  set (data := regroup 8 5 bytes) in *.
  destruct (create_checksum_shape PC_HRP data) as [Hcl Hcr].
  unfold pc_to_string, pc_from_str; fold bytes; fold data.
  rewrite !list_ascii_of_string_append, app_assoc, strip_prefix_app.
  rewrite list_ascii_of_string_of_list_ascii.
  rewrite mapM_dec_enc by (apply Forall_app; split; assumption).
  rewrite length_app, Hdl, Hcl; cbn [Nat.eqb negb PC_DATA_LEN].
  rewrite firstn_app_exact, skipn_app_exact by exact Hdl.
  rewrite forallb_combine_refl; cbn [negb].
  rewrite Hrt; apply pc_bytes_roundtrip.
Qed.

(** C2: the text encoding of every generated payment code decodes back to
    that payment code; and the string [Receiver::Code] prints (plain, or
    the [payment_code] field of its JSON) parses with
    [PaymentCode::from_str] to the payment code of the receiver it built. *)
Theorem payment_code_roundtrip :
  (forall seed account accepted r,
     recipient_from_seed seed account accepted = Ok r ->
     pc_from_str (pc_to_string (payment_code r)) = Ok (payment_code r))
  /\ (forall account json address_types seed_input out,
        receiver_code_run account json address_types seed_input = Ok out ->
        exists seed r s,
          get_seed_hex seed_input = Ok seed
          /\ recipient_from_seed seed account (collect_types address_types) = Ok r
          /\ printed_payment_code out = Some s
          /\ pc_from_str s = Ok (payment_code r)).
Proof.
  assert (gen_rt : forall seed account accepted r,
     recipient_from_seed seed account accepted = Ok r ->
     pc_from_str (pc_to_string (payment_code r)) = Ok (payment_code r)).
  { intros seed account accepted r Hr.
    unfold recipient_from_seed in Hr; destruct (account_key seed account); [|discriminate].
    injection Hr as <-; apply pc_text_roundtrip. }
  split; [exact gen_rt|].
  intros account json address_types seed_input out Hrun.
  unfold receiver_code_run in Hrun.
  destruct (get_seed_hex seed_input) as [seed|] eqn:Hs; [|discriminate]; cbn [rbind] in Hrun.
  destruct (recipient_from_seed seed account (collect_types address_types)) as [r|] eqn:Hr;
    [|discriminate]; cbn [rbind lift] in Hrun.
  exists seed, r, (pc_to_string (payment_code r)).
  split; [reflexivity|]; split; [exact Hr|].
  split; [|exact (gen_rt _ _ _ _ Hr)].
  destruct json; injection Hrun as <-; reflexivity.
Qed.

End TextCodec.


(** * Further properties of the CLI *)

(** ** Address types *)

Lemma set_mem_insert (t u : AddressType) (s : AddrSet) :
  set_mem t (set_insert u s) = true <-> t = u \/ set_mem t s = true.
Proof. destruct t, u, s as [a b c]; simpl; intuition congruence. Qed.

Lemma set_mem_fold (t : AddressType) (ts : list AddressType) (s : AddrSet) :
  set_mem t (fold_left (fun s u => set_insert u s) ts s) = true
  <-> set_mem t s = true \/ In t ts.
Proof.
  revert s; induction ts as [|u ts IH]; intros s; simpl; [tauto|].
  rewrite IH, set_mem_insert; intuition congruence.
Qed.

Lemma collect_types_mem (t : AddressType) (ts : list AddressType) :
  set_mem t (collect_types ts) = true <-> In t ts.
Proof. unfold collect_types; rewrite set_mem_fold; destruct t; simpl; intuition discriminate. Qed.

(** X1: collecting the [-t] address types into the accepted set
    ([address_types.into_iter().map(|t| t.into()).collect()]) keeps
    exactly the listed types: a type is in the set iff it was listed, so
    order and repetitions of [-t] do not matter. *)
Theorem collect_types_members :
  (forall ts t, set_mem t (collect_types ts) = true <-> In t ts)
  /\ (forall ts1 ts2, (forall t, In t ts1 <-> In t ts2) ->
        collect_types ts1 = collect_types ts2).
Proof.
  split; [intros; apply collect_types_mem|].
  intros ts1 ts2 H.
  assert (E : forall t, set_mem t (collect_types ts1) = set_mem t (collect_types ts2)).
  { intros t; apply eq_true_iff_eq; rewrite !collect_types_mem; apply H. }
  pose proof (E P2pkh) as E1; pose proof (E P2wpkh) as E2; pose proof (E P2tr) as E3.
  destruct (collect_types ts1), (collect_types ts2); simpl in *; congruence.
Qed.

(** X2: the two [From] impls between the CLI's [AddressType] and
    [bip351::AddressType] are inverse to each other, the printed name of a
    [bip351] type (line 155) is the CLI type's [Display], the three names
    are distinct, and the default [-t] type is [P2wpkh]. *)
Theorem cli_address_type_conversions :
  (forall t, bip351_to_cli (cli_to_bip351 t) = t)
  /\ (forall t, cli_to_bip351 (bip351_to_cli t) = t)
  /\ (forall t, address_type_to_string t = cli_display (bip351_to_cli t))
  /\ (forall t u, cli_display t = cli_display u -> t = u)
  /\ cli_to_bip351 cli_address_type_default = P2wpkh.
Proof.
  repeat split; intros;
    repeat match goal with
           | t : CliAddressType |- _ => destruct t
           | t : AddressType |- _ => destruct t
           end;
    simpl in *; try reflexivity; discriminate.
Qed.

(** ** Capacity *)

Lemma index_range_bounds (s : Z) (l : option Z) :
  r_start (index_range s l) = s /\ s <= r_end (index_range s l)
  /\ (r_end (index_range s l) = s \/ l = Some (r_end (index_range s l))).
Proof.
  unfold index_range; destruct l as [e|]; [|simpl; lia].
  destruct (Z.geb_spec e s); simpl; [|lia]. split; [reflexivity|]; split; [lia|auto].
Qed.

Lemma length_range_elems (r : range_inclusive) :
  r_start r <= r_end r ->
  Z.of_nat (length (range_elems r)) = r_end r - r_start r + 1.
Proof.
  intros H; unfold range_elems; rewrite (proj2 (Z.leb_le _ _) H).
  rewrite length_map, length_seq; lia.
Qed.

(** X3: for [u64] bounds, the capacity hint
    [end.saturating_add(1).saturating_sub(start)] is the number of indices
    the loop visits, except when the range ends at [u64::MAX], where the
    saturating addition makes it one short. *)
Theorem output_capacity_count (s : Z) (l : option Z) :
  0 <= s <= u64_max -> (forall e, l = Some e -> 0 <= e <= u64_max) ->
  (r_end (index_range s l) < u64_max ->
     output_capacity (index_range s l) = Z.of_nat (length (range_elems (index_range s l))))
  /\ (r_end (index_range s l) = u64_max ->
     output_capacity (index_range s l)
     = Z.of_nat (length (range_elems (index_range s l))) - 1).
Proof.
  intros Hs Hl.
  destruct (index_range_bounds s l) as (Hst & Hle & Hend).
  rewrite length_range_elems by lia; rewrite Hst.
  assert (Hu : r_end (index_range s l) <= u64_max).
  { destruct Hend as [->|He]; [lia|apply Hl; exact He]. }
  unfold output_capacity, saturating_add, saturating_sub; rewrite Hst.
  split; intros H; lia.
Qed.

Lemma dec_digits_value (fuel : nat) (n : Z) (acc : list ascii) (v : Z) :
  0 <= n < 10 ^ Z.of_nat fuel ->
  exists k : nat, dec_value_acc v (dec_digits fuel n acc)
                  = dec_value_acc (v * 10 ^ Z.of_nat k + n) acc.
Proof.
  revert n acc v; induction fuel as [|f IH]; intros n acc v Hn.
  - exists 0%nat; simpl in *; replace n with 0 by lia; f_equal; lia.
  - cbn [dec_digits].
    assert (Hd : dec_digit_value (hex_char (n mod 10)) = n mod 10).
    { unfold dec_digit_value; rewrite hex_digit_hex_char; [reflexivity|].
      pose proof (Z.mod_pos_bound n 10); lia. }
    destruct (Z.ltb_spec n 10) as [Hlt|Hge].
    + exists 1%nat; cbn [dec_value_acc]; rewrite Hd, Z.mod_small by lia.
      f_equal; lia.
    + assert (Hq : 0 <= n / 10 < 10 ^ Z.of_nat f).
      { split; [apply Z.div_pos; lia|].
        apply Z.div_lt_upper_bound; [lia|].
        rewrite Nat2Z.inj_succ, Z.pow_succ_r in Hn by lia; lia. }
      destruct (IH (n / 10) (hex_char (n mod 10) :: acc) v Hq) as [k Hk].
      exists (S k); rewrite Hk; cbn [dec_value_acc]; rewrite Hd; f_equal.
      rewrite Nat2Z.inj_succ, Z.pow_succ_r by lia.
      pose proof (Z.div_mod n 10); lia.
Qed.

Lemma dec_value_dec_string (n : Z) :
  0 <= n < 10 ^ 40 -> dec_value (dec_string n) = n.
Proof.
  intros Hn; unfold dec_value, dec_string.
  rewrite list_ascii_of_string_of_list_ascii.
  destruct (dec_digits_value 40 n [] 0 Hn) as [k Hk]; rewrite Hk; simpl; lia.
Qed.

(** X4: the decimal rendering of a [u64] (index and account fields)
    reads back to the number, and distinct [u32] accounts give distinct
    [bip32_path] strings [m/351'/0'/{account}']. *)
Theorem decimal_rendering_readback :
  (forall n, 0 <= n <= u64_max -> dec_value (dec_string n) = n)
  /\ (forall a b, 0 <= a < 2 ^ 32 -> 0 <= b < 2 ^ 32 ->
        bip32_path a = bip32_path b -> a = b).
Proof.
  split.
  - intros n Hn; apply dec_value_dec_string; unfold u64_max in Hn; lia.
  - intros a b Ha Hb H; unfold bip32_path in H.
    apply (f_equal list_ascii_of_string) in H.
    rewrite !list_ascii_of_string_append in H.
    apply app_inv_head in H; apply app_inv_tail in H.
    rewrite <- (dec_value_dec_string a), <- (dec_value_dec_string b) by lia.
    unfold dec_value; rewrite H; reflexivity.
Qed.

Section Runs.
Context `{C : Curve} `{P : @Primitives C}.







Lemma receiver_json_loop_indices r c show idxs l :
  receiver_json_loop r c show idxs = Ok l -> map json_index l = map Some idxs.
Proof.
  revert l; induction idxs as [|i idxs IH]; intros l H; cbn [receiver_json_loop] in H.
  - injection H as <-; reflexivity.
  - destruct (key_info r c i) as [[[a pub] k]|]; [|discriminate].
    destruct (receiver_json_loop r c show idxs) as [l'|] eqn:E; [|discriminate].
    cbn [rmap] in H; injection H as <-; cbn [map]; rewrite (IH l' eq_refl).
    destruct show; reflexivity.
Qed.

Lemma sender_json_loop_indices sd c idxs l :
  sender_json_loop sd c idxs = Ok l -> map json_index l = map Some idxs.
Proof.
  revert l; induction idxs as [|i idxs IH]; intros l H; cbn [sender_json_loop] in H.
  - injection H as <-; reflexivity.
  - destruct (sender_address sd c i); [|discriminate].
    destruct (sender_json_loop sd c idxs) as [l'|] eqn:E; [|discriminate].
    cbn [rmap] in H; injection H as <-; cbn [map]; rewrite (IH l' eq_refl); reflexivity.
Qed.

(** X7: the ["addresses"] array of the JSON output of
    [Receiver::Decode] has one entry per index of the range, in order, each
    carrying its index. *)
Theorem receiver_json_address_indices (notification : string) account address_types
    start last show seed_input j :
  receiver_decode_run notification account true address_types start last show seed_input
  = Returned (Ok (OJson j)) ->
  exists l, json_field "addresses" j = Some (JArr l)
            /\ map json_index l = map Some (range_elems (index_range start last)).
Proof.
  unfold receiver_decode_run.
  destruct (from_hex notification) as [bytes|]; [|discriminate].
  destruct (get_seed_hex seed_input) as [seed|]; [|discriminate].
  destruct (lift _) as [r|]; [|discriminate].
  destruct (detect_notification r _) as [c|]; [|discriminate].
  destruct (capacity_overflows _ _ _); [discriminate|].
  destruct (receiver_json_loop r c show _) as [l|] eqn:E; [|discriminate].
  destruct (slice_from_2 _); [|discriminate].
  intros H; injection H as <-.
  exists l; split; [reflexivity|]; exact (receiver_json_loop_indices _ _ _ _ _ E).
Qed.

(** X8: the ["addresses"] array of the JSON output of [Sender::Notify]
    has one entry per index of the range, in order, each carrying its
    index. *)
Theorem sender_json_address_indices account recipient_index address_type
    recipient_payment_code start last seed_input j :
  sender_notify_run account true recipient_index address_type recipient_payment_code
    start last seed_input = Returned (Ok (OJson j)) ->
  exists l, json_field "addresses" j = Some (JArr l)
            /\ map json_index l = map Some (range_elems (index_range start last)).
Proof.
  unfold sender_notify_run.
  destruct (pc_from_str recipient_payment_code) as [pc|]; [|discriminate].
  destruct (get_seed_hex seed_input) as [seed|]; [|discriminate].
  destruct (lift (sender_from_seed _ _)) as [sd|]; [|discriminate].
  destruct (lift (notify sd pc _ _)) as [[tx c]|]; [|discriminate].
  destruct (capacity_overflows _ _ _); [discriminate|].
  destruct (sender_json_loop sd c _) as [l|] eqn:E; [|discriminate].
  destruct (slice_from_2 _); [|discriminate].
  intros H; injection H as <-.
  exists l; split; [reflexivity|]; exact (sender_json_loop_indices _ _ _ _ E).
Qed.

(** X9: the ["receiver"] object of a JSON [Receiver::Decode] output holds
    the payment code that [Receiver::Code] prints for the same account,
    address types and seed, with the account and its [bip32_path]. *)
Theorem decode_json_receiver_matches_code (notification : string) account address_types
    start last show seed_input j :
  receiver_decode_run notification account true address_types start last show seed_input
  = Returned (Ok (OJson j)) ->
  exists p, receiver_code_run account false address_types seed_input = Ok (OPlain p)
    /\ json_field "receiver" j
       = Some (JObj [("payment_code", JStr p); ("account", JNum account);
                     ("bip32_path", JStr (bip32_path account))]).
Proof.
  unfold receiver_decode_run, receiver_code_run.
  destruct (from_hex notification) as [bytes|]; [|discriminate].
  destruct (get_seed_hex seed_input) as [seed|]; [|discriminate]; cbn [rbind].
  destruct (lift _) as [r|]; [|discriminate]; cbn [rbind].
  destruct (detect_notification r _) as [c|]; [|discriminate].
  destruct (capacity_overflows _ _ _); [discriminate|].
  destruct (receiver_json_loop r c show _) as [l|]; [|discriminate].
  destruct (slice_from_2 _); [|discriminate].
  intros H; injection H as <-.
  eexists; split; reflexivity.
Qed.

(** X10: the ["address_types"] array of a JSON [Receiver::Code] output
    names each type given with [-t] exactly once, and nothing else. *)
Theorem code_json_address_types account address_types seed_input j :
  receiver_code_run account true address_types seed_input = Ok (OJson j) ->
  exists l, json_field "address_types" j = Some (JArr l)
    /\ NoDup l
    /\ (forall v, In v l <-> exists t, In t address_types
                                     /\ v = JStr (address_type_to_string t)).
Proof.
  unfold receiver_code_run.
  destruct (get_seed_hex seed_input) as [seed|]; [|discriminate]; cbn [rbind].
  destruct (recipient_from_seed seed account (collect_types address_types)) as [r|] eqn:Hr;
    [|discriminate]; cbn [lift rbind].
  intros H; injection H as <-.
  eexists; split; [reflexivity|].
  unfold payment_code; rewrite (recipient_from_seed_types _ _ _ _ Hr).
  split.
  - destruct (collect_types address_types) as [[] [] []]; cbn;
      repeat constructor; cbn; intuition discriminate.
  - intros v; rewrite in_map_iff; split.
    + intros (t & <- & Ht); apply filter_In in Ht as [_ Ht].
      exists t; split; [apply collect_types_mem; exact Ht|reflexivity].
    + intros (t & Ht & ->); exists t; split; [reflexivity|].
      apply filter_In; split; [destruct t; simpl; auto|].
      apply collect_types_mem; exact Ht.
Qed.

End Runs.

Section Hidden.
Context `{C : Curve} (P : @Primitives C) (f : Z -> string).

Lemma receiver_json_loop_hidden r c idxs :
  @receiver_json_loop C P r c false idxs
  = @receiver_json_loop C (with_privkey_printer P f) r c false idxs.
Proof.
  induction idxs as [|i idxs IH]; cbn [receiver_json_loop]; [reflexivity|].
  change (@key_info C (with_privkey_printer P f) r c i) with (@key_info C P r c i).
  destruct (@key_info C P r c i) as [[[a pub] k]|]; [|reflexivity].
  rewrite IH; reflexivity.
Qed.

Lemma receiver_plain_loop_hidden r c idxs :
  @receiver_plain_loop C P r c false idxs
  = @receiver_plain_loop C (with_privkey_printer P f) r c false idxs.
Proof.
  induction idxs as [|i idxs IH]; cbn [receiver_plain_loop]; [reflexivity|].
  change (@key_info C (with_privkey_printer P f) r c i) with (@key_info C P r c i).
  destruct (@key_info C P r c i) as [[[a pub] k]|]; [|reflexivity].
  rewrite IH; reflexivity.
Qed.

(** X11: without [-P], the output of [Receiver::Decode] (either form)
    does not depend on how private keys are printed: no private key is
    shown. *)
Theorem private_keys_hidden_without_flag (notification : string) account json
    address_types start last seed_input :
  @receiver_decode_run C P notification account json address_types start last false
    seed_input
  = @receiver_decode_run C (with_privkey_printer P f) notification account json
      address_types start last false seed_input.
Proof.
  unfold receiver_decode_run.
  change (@recipient_from_seed C (with_privkey_printer P f)) with (@recipient_from_seed C P).
  change (@detect_notification C (with_privkey_printer P f)) with (@detect_notification C P).
  destruct (from_hex notification) as [bytes|]; [|reflexivity]; cbv zeta.
  destruct (get_seed_hex seed_input) as [seed|]; [|reflexivity].
  destruct (lift _) as [r|]; [|reflexivity].
  destruct (@detect_notification C P r _) as [c|]; [|reflexivity].
  rewrite <- receiver_json_loop_hidden, <- receiver_plain_loop_hidden.
  reflexivity.
Qed.

End Hidden.

Section Paste.
Context `{C : Curve} `{P : @Primitives C}.
Hypothesis serialize_len : forall k, length (serialize (smul k gen)) = 33%nat.
Hypothesis serialize_bytes : forall k, forallb is_byte (serialize (smul k gen)) = true.

(** X12: the ["payload"] printed by [Sender::Notify] (the script bytes
    from index 2) starts with the magic tag, and giving it to
    [Receiver::Decode] has the same result as giving the full
    ["scriptpubkey"]. *)
Theorem notify_payload_paste sd pc recipient_index t tx c :
  notify sd pc recipient_index t = Ok (tx, c) ->
  exists payload,
    slice_from_2 (script_pubkey tx) = Some payload
    /\ starts_with payload magic = true
    /\ forall account json address_types start last show seed_input,
         receiver_decode_run (to_hex payload) account json address_types start last show
           seed_input
         = receiver_decode_run (to_hex (script_pubkey tx)) account json address_types start
             last show seed_input.
Proof.
  unfold notify; destruct (negb _); [discriminate|]; destruct (_ && _); [|discriminate].
  intros H; injection H as <- _; cbn [script_pubkey].
  set (e := ephemeral_key (sd_secret sd) recipient_index).
  set (p := encode_notification (MkNotification (smul e gen) recipient_index t)).
  assert (Hp : p = magic ++ serialize (smul e gen) ++ to_be 4 recipient_index
                   ++ [type_tag t]) by reflexivity.
  assert (Hlen : length p = 40%nat).
  { rewrite Hp, !length_app, serialize_len, length_to_be; reflexivity. }
  assert (Hs : new_op_return p = OP_RETURN :: 40 :: p).
  { unfold new_op_return, push_slice; rewrite Hlen; reflexivity. }
  assert (Hb : forallb is_byte p = true).
  { rewrite Hp, !forallb_app, serialize_bytes, to_be_bytes; destruct t; reflexivity. }
  assert (Hm : starts_with p magic = true) by (rewrite Hp; reflexivity).
  exists p; rewrite Hs; split; [reflexivity|]; split; [exact Hm|].
  intros account json address_types start last show seed_input.
  unfold receiver_decode_run.
  rewrite (from_hex_to_hex p Hb).
  rewrite (from_hex_to_hex (OP_RETURN :: 40 :: p)) by (cbn [forallb]; rewrite Hb; reflexivity).
  assert (Hd1 : decode_input_script p = OP_RETURN :: 40 :: p).
  { unfold decode_input_script; rewrite Hm; exact Hs. }
  assert (Hd2 : decode_input_script (OP_RETURN :: 40 :: p) = OP_RETURN :: 40 :: p)
    by reflexivity.
  cbv zeta; rewrite Hd1, Hd2; reflexivity.
Qed.

End Paste.

(** ** The laws hold in the discrete-log model *)

Module DlogLaws.
Import DlogModel.

Lemma curve_order_pos : 0 < curve_order.
Proof. unfold curve_order; lia. Qed.

Lemma dlog_smul_comm : forall a b, smul a (smul b gen) = smul b (smul a gen).
Proof.
  intros a b; cbn [smul gen curve].
  rewrite !Z.mul_1_r, !Z.mul_mod_idemp_r by (pose proof curve_order_pos; lia).
  rewrite Z.mul_comm; reflexivity.
Qed.

Lemma dlog_smul_add :
  forall a b, smul ((a + b) mod curve_order) gen = padd (smul a gen) (smul b gen).
Proof.
  intros a b; cbn [smul gen padd curve].
  rewrite !Z.mul_1_r, Z.mod_mod by (pose proof curve_order_pos; lia).
  rewrite Z.add_mod by (pose proof curve_order_pos; lia); reflexivity.
Qed.

Lemma dlog_serialize_len : forall k, length (serialize (smul k gen)) = 33%nat.
Proof. intros k; cbn [serialize curve length]; rewrite length_to_be; reflexivity. Qed.

Lemma dlog_serialize_bytes : forall k, forallb is_byte (serialize (smul k gen)) = true.
Proof. intros k; cbn [serialize curve forallb]; rewrite to_be_bytes; reflexivity. Qed.

Lemma dlog_deserialize_serialize :
  forall k, deserialize (serialize (smul k gen)) = Some (smul k gen).
Proof.
  intros k; cbn [serialize deserialize smul gen curve].
  set (x := (k * 1) mod curve_order).
  assert (Hx : 0 <= x < curve_order) by (apply Z.mod_pos_bound, curve_order_pos).
  unfold deserialize_dlog; rewrite length_to_be; cbn [Z.eqb orb andb Nat.eqb].
  rewrite from_be_to_be.
  - rewrite (proj2 (Z.leb_le 0 x) (proj1 Hx)), (proj2 (Z.ltb_lt x _) (proj2 Hx)).
    reflexivity.
  - split; [lia|]; eapply Z.lt_le_trans; [exact (proj2 Hx)|].
    unfold curve_order; vm_compute; discriminate.
Qed.

End DlogLaws.

(** ** Witnesses and counterexamples in the discrete-log model *)

Module DlogRuns.
Import DlogModel DlogLaws.

(** Closed equations are decided by the VM on both sides, without
    normalising the instance that appears in the equality's type. *)
Ltac vm_refl := match goal with |- ?a = ?b => exact (@eq_refl _ a <: a = b) end.

Lemma notify_detect_agree_witness :
  recipient_from_seed demo_seed 0 demo_accepted = Ok demo_recipient /\
  notify demo_sender (payment_code demo_recipient) 7 P2wpkh = Ok (demo_notify P2wpkh) /\
  detect_notification demo_recipient (script_pubkey (fst (demo_notify P2wpkh)))
    = Some (snd (demo_notify P2wpkh)).
Proof.
  split; [vm_refl|].
  split; [vm_refl|].
  apply (proj1 (@notify_detect_agree curve primitives dlog_smul_comm dlog_smul_add dlog_serialize_len
    dlog_deserialize_serialize demo_seed 0 demo_accepted demo_recipient demo_sender 7
    P2wpkh (fst (demo_notify P2wpkh)) (snd (demo_notify P2wpkh))
    ltac:(vm_refl) ltac:(lia) ltac:(vm_refl))).
Defined.


Lemma payment_code_roundtrip_witness :
  recipient_from_seed demo_seed 0 demo_accepted = Ok demo_recipient /\
  pc_from_str (pc_to_string (payment_code demo_recipient)) = Ok (payment_code demo_recipient).
Proof.
  split; [vm_refl|].
  apply (proj1 (@payment_code_roundtrip curve primitives dlog_serialize_len dlog_serialize_bytes
    dlog_deserialize_serialize) demo_seed 0 demo_accepted demo_recipient).
  vm_refl.
Defined.

Lemma unaccepted_type_not_detected_witness :
  n_type (demo_notification (script_pubkey (fst demo_notify_p2tr))) = P2tr /\
  detect_notification demo_recipient
    (decode_input_script (script_pubkey (fst demo_notify_p2tr))) = None /\
  receiver_decode_run p2tr_hex 0 true [P2wpkh] 0 None true (Some demo_seed_hex)
    = Returned (Ok OEmpty).
Proof.
  split; [vm_refl|].
  apply (@unaccepted_type_not_detected curve primitives p2tr_hex 0 true [P2wpkh] 0 None true
    (Some demo_seed_hex) (script_pubkey (fst demo_notify_p2tr)) demo_seed demo_recipient
    (demo_notification (script_pubkey (fst demo_notify_p2tr))));
    vm_refl.
Defined.

Lemma non_notification_empty_witness :
  decode_notification (decode_input_script [0; 1; 2]) = None /\
  detect_notification demo_recipient (decode_input_script [0; 1; 2]) = None /\
  receiver_decode_run "000102" 0 false [P2wpkh] 0 (Some 5) false (Some demo_seed_hex)
    = Returned (Ok OEmpty).
Proof.
  apply (@non_notification_empty curve primitives "000102" 0 false [P2wpkh] 0 (Some 5) false
    (Some demo_seed_hex) [0; 1; 2] demo_seed demo_recipient);
    try (vm_refl).
  left; vm_refl.
Defined.

Lemma key_info_private_key_matches_witness :
  smul (snd (demo_key_info 3)) gen = snd (fst (demo_key_info 3)) /\
  fst (fst (demo_key_info 3))
    = encode_address (c_type (snd (demo_notify P2wpkh))) (snd (fst (demo_key_info 3))).
Proof.
  apply (@key_info_private_key_matches curve primitives dlog_smul_add demo_seed 0 demo_accepted
    demo_recipient (script_pubkey (fst (demo_notify P2wpkh))) (snd (demo_notify P2wpkh)) 3
    (fst (fst (demo_key_info 3))) (snd (fst (demo_key_info 3))) (snd (demo_key_info 3)));
    vm_refl.
Defined.

End DlogRuns.

(** ** Witnesses of the further properties *)

Module DlogExtras.
Import DlogModel DlogLaws DlogRuns.

Lemma output_capacity_count_witness :
  r_end (index_range 0 (Some u64_max)) = u64_max
  /\ output_capacity (index_range 0 (Some u64_max))
     = Z.of_nat (length (range_elems (index_range 0 (Some u64_max)))) - 1.
Proof.
  assert (He : r_end (index_range 0 (Some u64_max)) = u64_max) by (vm_compute; reflexivity).
  split; [exact He|].
  apply (proj2 (output_capacity_count 0 (Some u64_max)
    ltac:(unfold u64_max; lia)
    ltac:(intros e Hs; injection Hs as <-; unfold u64_max; lia))).
  exact He.
Defined.



Lemma receiver_json_address_indices_witness :
  exists l, json_field "addresses" demo_decode_json = Some (JArr l)
            /\ map json_index l = map Some (range_elems (index_range 2 (Some 4))).
Proof.
  apply (@receiver_json_address_indices curve primitives demo_notification_hex 0 [P2wpkh]
    2 (Some 4) true (Some demo_seed_hex) demo_decode_json); vm_refl.
Defined.

Lemma sender_json_address_indices_witness :
  exists l, json_field "addresses" demo_notify_json = Some (JArr l)
            /\ map json_index l = map Some (range_elems (index_range 2 (Some 4))).
Proof.
  apply (@sender_json_address_indices curve primitives 0 7 P2wpkh demo_payment_code
    2 (Some 4) (Some "aabb") demo_notify_json); vm_refl.
Defined.

Lemma decode_json_receiver_matches_code_witness :
  exists p, receiver_code_run 0 false [P2wpkh] (Some demo_seed_hex) = Ok (OPlain p)
    /\ json_field "receiver" demo_decode_json
       = Some (JObj [("payment_code", JStr p); ("account", JNum 0);
                     ("bip32_path", JStr (bip32_path 0))]).
Proof.
  apply (@decode_json_receiver_matches_code curve primitives demo_notification_hex 0
    [P2wpkh] 2 (Some 4) true (Some demo_seed_hex) demo_decode_json); vm_refl.
Defined.

Lemma code_json_address_types_witness :
  exists l, json_field "address_types" demo_code_json = Some (JArr l)
    /\ NoDup l
    /\ (forall v, In v l <-> exists t, In t [P2tr; P2wpkh; P2tr]
                                     /\ v = JStr (address_type_to_string t)).
Proof.
  apply (@code_json_address_types curve primitives 0 [P2tr; P2wpkh; P2tr]
    (Some demo_seed_hex) demo_code_json); vm_refl.
Defined.

Lemma notify_payload_paste_witness :
  exists payload,
    slice_from_2 (script_pubkey (fst (demo_notify P2wpkh))) = Some payload
    /\ starts_with payload magic = true
    /\ forall account json address_types start last show seed_input,
         receiver_decode_run (to_hex payload) account json address_types start last show
           seed_input
         = receiver_decode_run (to_hex (script_pubkey (fst (demo_notify P2wpkh)))) account json
             address_types start last show seed_input.
Proof.
  apply (@notify_payload_paste curve primitives dlog_serialize_len dlog_serialize_bytes
    demo_sender (payment_code demo_recipient) 7 P2wpkh (fst (demo_notify P2wpkh))
    (snd (demo_notify P2wpkh))); vm_refl.
Defined.

End DlogExtras.
